(** * Customer Notes: the data model and query functions of [src/app/page.tsx]

    The component [Home] keeps two collections, [folders] and [notes], and a
    few selection fields in React state.  This development embeds the
    functions that read and write that state and proves what they do.

    Conventions of the embedding:
    - a JavaScript string is a [string]: a sequence of UTF-16 code units;
    - a timestamp ([Date.now()], a [number] holding an integer) is a [Z];
    - [string | null] is [option string];
    - [new Set(xs)] is a [gset string], [s.has(x)] is membership in it;
    - [Date.now()] and [uid()] are read from the environment, so the
      operations that call them take their results as arguments;
    - [getFolderAndDescendants] recurses without a bound; the embedding
      counts the depth of the recursion with a fuel argument, and [None]
      stands for a recursion that does not come back (the call stack
      overflows and the handler throws before it sets any state). *)

From Stdlib Require Import ZArith NArith.
From Stdlib Require Strings.Byte.
From stdpp Require Import base option list sorting relations gmap.

(** ** Strings *)

(** A string is a sequence of code units, each a number. *)
Inductive string : Type :=
  | EmptyString
  | String (c : N) (s : string).

(** A literal stands for the code units of its characters; the literals of
    this development are ASCII, one unit for each character. *)
Fixpoint of_bytes (bs : list Byte.byte) : string :=
  match bs with
  | [] => EmptyString
  | b :: bs' => String (Byte.to_N b) (of_bytes bs')
  end.

Fixpoint to_bytes (s : string) : option (list Byte.byte) :=
  match s with
  | EmptyString => Some []
  | String c s' =>
      match Byte.of_N c, to_bytes s' with
      | Some b, Some bs => Some (b :: bs)
      | _, _ => None
      end
  end.

Declare Scope js_scope.
Delimit Scope js_scope with js.
Bind Scope js_scope with string.
String Notation string of_bytes to_bytes : js_scope.
Local Open Scope js_scope.

(** [a + b] on strings *)
Fixpoint append (a b : string) : string :=
  match a with
  | EmptyString => b
  | String c a' => String c (append a' b)
  end.

Infix "++" := append (right associativity, at level 60) : js_scope.

Arguments append : simpl never.

(** [s.length] *)
Fixpoint strlen (s : string) : nat :=
  match s with
  | EmptyString => 0
  | String _ s' => S (strlen s')
  end.

Fixpoint units (s : string) : list N :=
  match s with
  | EmptyString => []
  | String c s' => c :: units s'
  end.

Fixpoint of_units (l : list N) : string :=
  match l with
  | [] => EmptyString
  | c :: l' => String c (of_units l')
  end.

#[global] Instance string_eq_dec : EqDecision string.
Proof. solve_decision. Defined.

#[global] Instance string_countable : Countable string.
Proof.
  refine (inj_countable' units of_units _).
  intros s. induction s as [|c s IH]; simpl; [done | by rewrite IH].
Defined.

(** The white space and line terminators that [String.prototype.trim]
    strips: TAB, LF, VT, FF, CR, SPACE, NO-BREAK SPACE, U+1680, U+2000 to
    U+200A, U+2028, U+2029, U+202F, U+205F, U+3000 and U+FEFF. *)
Definition is_white_space (c : N) : bool :=
  ((9 <=? c) && (c <=? 13) || (c =? 32) || (c =? 160) || (c =? 5760)
   || (8192 <=? c) && (c <=? 8202) || (c =? 8232) || (c =? 8233)
   || (c =? 8239) || (c =? 8287) || (c =? 12288) || (c =? 65279))%N.

Fixpoint trimStart (s : string) : string :=
  match s with
  | EmptyString => EmptyString
  | String c s' => if is_white_space c then trimStart s' else s
  end.

Fixpoint trimEnd (s : string) : string :=
  match s with
  | EmptyString => EmptyString
  | String c s' =>
      match trimEnd s' with
      | EmptyString => if is_white_space c then EmptyString else String c EmptyString
      | t => String c t
      end
  end.

(** [s.trim()] *)
Definition trim (s : string) : string := trimEnd (trimStart s).

(** The capital letters among the code units below 256: A-Z, and U+00C0 to
    U+00DE except the multiplication sign U+00D7. *)
Definition is_upper (c : N) : bool :=
  ((65 <=? c) && (c <=? 90) || (192 <=? c) && (c <=? 222) && negb (c =? 215))%N.

(** Lower case of one code unit, as [String.prototype.toLowerCase] gives it
    on the code units below 256 and on U+0130: a capital letter below 256
    moves up by 32, the other units below 256 stay, and U+0130 (capital I
    with dot above) becomes the two units U+0069 U+0307.  The rest of the
    Unicode table is not reproduced here: a unit outside these is left as
    it is, and what depends on the table is stated for strings of the units
    it covers. *)
Definition lower_unit (c : N) : string :=
  if is_upper c then String (c + 32) EmptyString
  else if (c =? 304)%N then String 105 (String 775 EmptyString)
  else String c EmptyString.

(** [s.toLowerCase()] *)
Fixpoint toLowerCase (s : string) : string :=
  match s with
  | EmptyString => EmptyString
  | String c s' => lower_unit c ++ toLowerCase s'
  end.

(** [s.startsWith(p)], used by [includes]. *)
Fixpoint startsWith (s p : string) : bool :=
  match p, s with
  | EmptyString, _ => true
  | String _ _, EmptyString => false
  | String a p', String b s' => if decide (a = b) then startsWith s' p' else false
  end.

(** [s.includes(sub)] *)
Fixpoint includes (s sub : string) : bool :=
  startsWith s sub ||
  match s with
  | EmptyString => false
  | String _ s' => includes s' sub
  end.

(** Truthiness of a string: every string but the empty one. *)
Definition truthy (s : string) : bool :=
  match s with
  | EmptyString => false
  | String _ _ => true
  end.

(** Truthiness of a [string | null]. *)
Definition truthy_opt (o : option string) : bool :=
  match o with
  | None => false
  | Some s => truthy s
  end.

(** ** Types *)

Record Folder := mkFolder {
  f_id : string;
  f_parentId : option string;
  f_name : string;
  f_createdAt : Z
}.

Record Note := mkNote {
  n_id : string;
  n_folderId : string;
  n_title : string;
  n_content : string;
  n_createdAt : Z;
  n_updatedAt : Z
}.

(** [Partial<Note>]: each field present or absent. *)
Record NotePatch := mkPatch {
  p_id : option string;
  p_folderId : option string;
  p_title : option string;
  p_content : option string;
  p_createdAt : option Z;
  p_updatedAt : option Z
}.

(** The state of [Home] that the folder and note operations read or write. *)
Record State := mkState {
  folders : list Folder;
  notes : list Note;
  activeFolderId : string;
  activeNoteId : option string;
  editingFolderId : option string;
  folderDraft : string;
  search : string
}.

(** ** [Array.prototype] helpers *)

(** [xs.find(p)] *)
Fixpoint find {A} (p : A → bool) (xs : list A) : option A :=
  match xs with
  | [] => None
  | x :: xs' => if p x then Some x else find p xs'
  end.

(** [xs.sort(comparefn)] is the runtime's.  ECMAScript fixes its result for
    a consistent [comparefn]: the elements are ordered by the sign of
    [comparefn], and elements that compare as equal keep their order.  A
    stable insertion sort computes that result: [x], which stood before
    every element of [l], goes before the first [y] with
    [comparefn x y <= 0]. *)
Fixpoint sort_insert {A} (comparefn : A → A → Z) (x : A) (l : list A) : list A :=
  match l with
  | [] => [x]
  | y :: l' =>
      if (comparefn x y <=? 0)%Z then x :: l
      else y :: sort_insert comparefn x l'
  end.

Definition sort {A} (comparefn : A → A → Z) (l : list A) : list A :=
  foldr (sort_insert comparefn) [] l.

(** ** Folder helpers *)

Definition topLevelFolders (fs : list Folder) : list Folder :=
  filter (λ f, f_parentId f = None) fs.

Definition getSubfolders (fs : list Folder) (parentId : string) : list Folder :=
  filter (λ f, f_parentId f = Some parentId) fs.

(** Get all folder IDs that are descendants of a given folder (inclusive). *)
Fixpoint getFolderAndDescendants (fuel : nat) (fs : list Folder)
    (folderId : string) : option (list string) :=
  match fuel with
  | O => None
  | S fuel' =>
      let children := filter (λ f, f_parentId f = Some folderId) fs in
      sub ← mapM (λ c, getFolderAndDescendants fuel' fs (f_id c)) children;
      Some (folderId :: concat sub)
  end.

(** ** Folder ops *)

Definition commitRename (st : State) (id : string) : State :=
  let name := if truthy (trim (folderDraft st)) then trim (folderDraft st)
              else "Untitled" in
  {| folders :=
       (λ f, if decide (f_id f = id)
             then {| f_id := f_id f; f_parentId := f_parentId f;
                     f_name := name; f_createdAt := f_createdAt f |}
             else f) <$> folders st;
     notes := notes st;
     activeFolderId := activeFolderId st;
     activeNoteId := activeNoteId st;
     editingFolderId := None;
     folderDraft := folderDraft st;
     search := search st |}.

(** The rename input's [onChange]: [setFolderDraft(e.target.value)]. *)
Definition setFolderDraft (st : State) (value : string) : State :=
  {| folders := folders st;
     notes := notes st;
     activeFolderId := activeFolderId st;
     activeNoteId := activeNoteId st;
     editingFolderId := editingFolderId st;
     folderDraft := value;
     search := search st |}.

(** A rename as a whole: the draft is typed, then committed. *)
Definition renameFolder (st : State) (id newName : string) : State :=
  commitRename (setFolderDraft st newName) id.

Definition deleteFolder (fuel : nat) (st : State) (id : string) : option State :=
  ds ← getFolderAndDescendants fuel (folders st) id;
  let idsToDelete : gset string := list_to_set ds in
  Some
    {| folders := filter (λ f, f_id f ∉ idsToDelete) (folders st);
       notes := filter (λ n, n_folderId n ∉ idsToDelete) (notes st);
       activeFolderId :=
         if decide (activeFolderId st ∈ idsToDelete) then "all"
         else activeFolderId st;
       activeNoteId :=
         if decide (activeFolderId st ∈ idsToDelete) then None
         else activeNoteId st;
       editingFolderId := editingFolderId st;
       folderDraft := folderDraft st;
       search := search st |}.

(** ** Note ops *)

(** The note that [addNote] builds; [createdAt] and [updatedAt] come from
    two calls of [Date.now()]. *)
Definition newNote (newId folderId : string) (now1 now2 : Z) : Note :=
  {| n_id := newId; n_folderId := folderId; n_title := ""; n_content := "";
     n_createdAt := now1; n_updatedAt := now2 |}.

(** The tail of [addNote]: the note is put in front of the notes and made
    the active note; [setActive] tells whether the folder was picked under
    the sentinel, in which case it becomes the active folder. *)
Definition addNote_in (st : State) (folderId : string) (setActive : bool)
    (newId : string) (now1 now2 : Z) : State :=
  {| folders := folders st;
     notes := newNote newId folderId now1 now2 :: notes st;
     activeFolderId := if setActive then folderId else activeFolderId st;
     activeNoteId := Some newId;
     editingFolderId := editingFolderId st;
     folderDraft := folderDraft st;
     search := search st |}.

Definition addNote (st : State) (newId : string) (now1 now2 : Z) : State :=
  if decide (activeFolderId st = "all") then
    if decide (length (folders st) = 0) then st
    else
      match find (λ f, bool_decide (f_parentId f = None)) (folders st) with
      | None => st
      | Some topLevel => addNote_in st (f_id topLevel) true newId now1 now2
      end
  else addNote_in st (activeFolderId st) false newId now1 now2.

(** [{ ...n, ...patch, updatedAt: now }] *)
Definition applyPatch (n : Note) (patch : NotePatch) (now : Z) : Note :=
  {| n_id := default (n_id n) (p_id patch);
     n_folderId := default (n_folderId n) (p_folderId patch);
     n_title := default (n_title n) (p_title patch);
     n_content := default (n_content n) (p_content patch);
     n_createdAt := default (n_createdAt n) (p_createdAt patch);
     n_updatedAt := now |}.

Definition updateNote (st : State) (id : string) (patch : NotePatch) (now : Z) : State :=
  {| folders := folders st;
     notes := (λ n, if decide (n_id n = id) then applyPatch n patch now else n)
                <$> notes st;
     activeFolderId := activeFolderId st;
     activeNoteId := activeNoteId st;
     editingFolderId := editingFolderId st;
     folderDraft := folderDraft st;
     search := search st |}.

Definition deleteNote (st : State) (id : string) : State :=
  {| folders := folders st;
     notes := filter (λ n, n_id n ≠ id) (notes st);
     activeFolderId := activeFolderId st;
     activeNoteId :=
       if decide (activeNoteId st = Some id) then None else activeNoteId st;
     editingFolderId := editingFolderId st;
     folderDraft := folderDraft st;
     search := search st |}.

(** ** Derived state *)

(** [null] when every note is a candidate, the set of folder ids otherwise. *)
Definition activeFolderIds (fuel : nat) (st : State) : option (option (gset string)) :=
  if decide (activeFolderId st = "all") then Some None
  else
    ds ← getFolderAndDescendants fuel (folders st) (activeFolderId st);
    Some (Some (list_to_set ds)).

(** The predicate of the search filter. *)
Definition matchesSearch (search : string) (n : Note) : bool :=
  negb (truthy search)
  || includes (toLowerCase (n_title n)) (toLowerCase search)
  || includes (toLowerCase (n_content n)) (toLowerCase search).

(** The comparison function of the sort. *)
Definition byUpdatedDesc (a b : Note) : Z := (n_updatedAt b - n_updatedAt a)%Z.

Definition visibleNotes (fuel : nat) (st : State) : option (list Note) :=
  ids ← activeFolderIds fuel st;
  let candidates :=
    match ids with
    | None => notes st
    | Some s => filter (λ n, n_folderId n ∈ s) (notes st)
    end in
  Some (sort byUpdatedDesc (filter (λ n, matchesSearch (search st) n) candidates)).

(** Count notes in a folder and all its descendants. *)
Definition noteCount (fuel : nat) (st : State) (fid : string) : option nat :=
  ds ← getFolderAndDescendants fuel (folders st) fid;
  let allIds : gset string := list_to_set ds in
  Some (length (filter (λ n, n_folderId n ∈ allIds) (notes st))).

Definition folderName (fs : list Folder) (fid : string) : string :=
  match find (λ f, bool_decide (f_id f = fid)) fs with
  | Some f => f_name f
  | None => "Unknown"
  end.

(** Build breadcrumb path for a folder. *)
Definition folderPath (fs : list Folder) (fid : string) : string :=
  match find (λ f, bool_decide (f_id f = fid)) fs with
  | None => "Unknown"
  | Some folder =>
      if truthy_opt (f_parentId folder) then
        match find (λ f, bool_decide (Some (f_id f) = f_parentId folder)) fs with
        | Some parent => f_name parent ++ " / " ++ f_name folder
        | None => f_name folder
        end
      else f_name folder
  end.

(** [notes.find((n) => n.id === activeNoteId) ?? null] *)
Definition activeNote (st : State) : option Note :=
  find (λ n, bool_decide (Some (n_id n) = activeNoteId st)) (notes st).

(** [folders.find((f) => f.id === activeFolderId) ?? null] *)
Definition activeFolder (st : State) : option Folder :=
  find (λ f, bool_decide (f_id f = activeFolderId st)) (folders st).

(** ** Persistence *)

(** [parentId] of a folder record as [JSON.parse] hands it over: the
    property is missing in records written before subfolders existed. *)
Inductive StoredParentId :=
  | ParentMissing
  | ParentNull
  | ParentString (s : string).

Record StoredFolder := mkStored {
  sf_id : string;
  sf_parentId : StoredParentId;
  sf_name : string;
  sf_createdAt : Z
}.

(** [v ?? null] *)
Definition orNull (v : StoredParentId) : option string :=
  match v with
  | ParentString s => Some s
  | ParentMissing | ParentNull => None
  end.

(** Migrate old folders without parentId. *)
Definition migrated (parsed : list StoredFolder) : list Folder :=
  (λ folder, {| f_id := sf_id folder; f_parentId := orNull (sf_parentId folder);
                f_name := sf_name folder; f_createdAt := sf_createdAt folder |})
    <$> parsed.

(** ** More folder ops *)

(** The updater of [toggleExpanded], on the set of expanded folder ids. *)
Definition toggleExpanded (prev : gset string) (folderId : string) : gset string :=
  if decide (folderId ∈ prev) then prev ∖ {[folderId]} else {[folderId]} ∪ prev.

Definition addFolder (st : State) (newId : string) (now : Z) : State :=
  let f := {| f_id := newId; f_parentId := None; f_name := "New Customer";
              f_createdAt := now |} in
  {| folders := folders st ++ [f];
     notes := notes st;
     activeFolderId := f_id f;
     activeNoteId := None;
     editingFolderId := Some (f_id f);
     folderDraft := "New Customer";
     search := search st |}.

(** [addSubfolder] also expands the parent: the second component is the
    set of expanded folder ids. *)
Definition addSubfolder (st : State) (expanded : gset string)
    (parentId newId : string) (now : Z) : State * gset string :=
  let f := {| f_id := newId; f_parentId := Some parentId; f_name := "New Subfolder";
              f_createdAt := now |} in
  ({| folders := folders st ++ [f];
      notes := notes st;
      activeFolderId := f_id f;
      activeNoteId := None;
      editingFolderId := Some (f_id f);
      folderDraft := "New Subfolder";
      search := search st |},
   {[parentId]} ∪ expanded).

Definition startRename (st : State) (folder : Folder) : State :=
  {| folders := folders st;
     notes := notes st;
     activeFolderId := activeFolderId st;
     activeNoteId := activeNoteId st;
     editingFolderId := Some (f_id folder);
     folderDraft := f_name folder;
     search := search st |}.

(** ** Handlers written in the markup *)

(** The "All Notes" button. *)
Definition onClickAllNotes (st : State) : State :=
  {| folders := folders st;
     notes := notes st;
     activeFolderId := "all";
     activeNoteId := None;
     editingFolderId := editingFolderId st;
     folderDraft := folderDraft st;
     search := search st |}.

(** A click on a folder row, customer or subfolder. *)
Definition onClickFolder (st : State) (folder : Folder) : State :=
  if decide (editingFolderId st ≠ Some (f_id folder)) then
    {| folders := folders st;
       notes := notes st;
       activeFolderId := f_id folder;
       activeNoteId := None;
       editingFolderId := editingFolderId st;
       folderDraft := folderDraft st;
       search := search st |}
  else st.

(** A click on a note card. *)
Definition onClickNote (st : State) (note : Note) : State :=
  {| folders := folders st;
     notes := notes st;
     activeFolderId := activeFolderId st;
     activeNoteId := Some (n_id note);
     editingFolderId := editingFolderId st;
     folderDraft := folderDraft st;
     search := search st |}.

(** Escape in the rename input. *)
Definition onEscape (st : State) : State :=
  {| folders := folders st;
     notes := notes st;
     activeFolderId := activeFolderId st;
     activeNoteId := activeNoteId st;
     editingFolderId := None;
     folderDraft := folderDraft st;
     search := search st |}.

(** The search box and its clear button. *)
Definition setSearch (st : State) (value : string) : State :=
  {| folders := folders st;
     notes := notes st;
     activeFolderId := activeFolderId st;
     activeNoteId := activeNoteId st;
     editingFolderId := editingFolderId st;
     folderDraft := folderDraft st;
     search := value |}.

(** The patches of the two editor inputs. *)
Definition titlePatch (value : string) : NotePatch :=
  {| p_id := None; p_folderId := None; p_title := Some value; p_content := None;
     p_createdAt := None; p_updatedAt := None |}.

Definition contentPatch (value : string) : NotePatch :=
  {| p_id := None; p_folderId := None; p_title := None; p_content := Some value;
     p_createdAt := None; p_updatedAt := None |}.

(** ** Vocabulary of the specification *)

(** [child_link fs p c]: some folder of [fs] has id [c] and parentId [p]. *)
Definition child_link (fs : list Folder) (p c : string) : Prop :=
  ∃ f, f ∈ fs ∧ f_parentId f = Some p ∧ f_id f = c.

(** [y] is [id] or is reached from [id] along parentId links. *)
Definition reachable (fs : list Folder) (id y : string) : Prop :=
  rtc (child_link fs) id y.

(** No folder id is its own transitive ancestor. *)
Definition acyclic (fs : list Folder) : Prop :=
  ∀ x, ¬ tc (child_link fs) x x.

(** No cycle of parentId links lies below [id]. *)
Definition acyclic_below (fs : list Folder) (id : string) : Prop :=
  ∀ x, reachable fs id x → ¬ tc (child_link fs) x x.

(** Referential integrity of the two collections. *)
Definition parents_exist (fs : list Folder) : Prop :=
  ∀ f p, f ∈ fs → f_parentId f = Some p → ∃ g, g ∈ fs ∧ f_id g = p.

Definition owners_exist (fs : list Folder) (ns : list Note) : Prop :=
  ∀ n, n ∈ ns → ∃ g, g ∈ fs ∧ f_id g = n_folderId n.

Definition referential_integrity (st : State) : Prop :=
  parents_exist (folders st) ∧ owners_exist (folders st) (notes st).







(** Two code units below 256 that are the same letter: the same unit, or a
    capital letter and its small letter, 32 above. *)
Definition case_pair (a b : N) : Prop :=
  a = b
  ∨ (is_upper a = true ∧ b = (a + 32)%N)
  ∨ (is_upper b = true ∧ a = (b + 32)%N).

(** [a] and [b] have the same length and, unit by unit, the same letters. *)
Fixpoint letters_match (a b : string) : Prop :=
  match a, b with
  | EmptyString, EmptyString => True
  | String x a', String y b' => case_pair x y ∧ letters_match a' b'
  | _, _ => False
  end.

(** Most recently edited first. *)
Definition newer_or_same (a b : Note) : Prop := (n_updatedAt b ≤ n_updatedAt a)%Z.


(** ** Well-formed states and the events of the interface *)

(** The active folder id is the sentinel or the id of a folder. *)
Definition selection_ok (st : State) : Prop :=
  activeFolderId st = "all" ∨ ∃ f, f ∈ folders st ∧ f_id f = activeFolderId st.

Definition well_formed (st : State) : Prop :=
  referential_integrity st ∧ acyclic (folders st) ∧ selection_ok st.

(** [uid()] is taken to return an id that no folder carries. *)
Definition fresh_folder_id (st : State) (newId : string) : Prop :=
  ∀ f, f ∈ folders st → f_id f ≠ newId.

(** The state before anything is stored. *)
Definition initial : State := mkState [] [] "all" None None "" "".

(** One event of the interface.  The markup attaches the folder handlers to
    rows of folders of the list, offers the editor for the active note only
    and lists the visible notes; [fuel] is the depth the recursion of a
    delete or of a listing reaches. *)
Inductive step : State → State → Prop :=
  | step_addFolder st newId now :
      fresh_folder_id st newId →
      step st (addFolder st newId now)
  | step_addSubfolder st expanded parent newId now :
      parent ∈ folders st →
      fresh_folder_id st newId →
      step st (addSubfolder st expanded (f_id parent) newId now).1
  | step_startRename st folder :
      folder ∈ folders st →
      step st (startRename st folder)
  | step_setFolderDraft st value :
      step st (setFolderDraft st value)
  | step_commitRename st id :
      step st (commitRename st id)
  | step_escape st :
      step st (onEscape st)
  | step_deleteFolder st fuel id st' :
      deleteFolder fuel st id = Some st' →
      step st st'
  | step_addNote st newId now1 now2 :
      step st (addNote st newId now1 now2)
  | step_editTitle st n value now :
      activeNote st = Some n →
      step st (updateNote st (n_id n) (titlePatch value) now)
  | step_editContent st n value now :
      activeNote st = Some n →
      step st (updateNote st (n_id n) (contentPatch value) now)
  | step_deleteNote st id :
      step st (deleteNote st id)
  | step_allNotes st :
      step st (onClickAllNotes st)
  | step_clickFolder st folder :
      folder ∈ folders st →
      step st (onClickFolder st folder)
  | step_clickNote st note :
      step st (onClickNote st note)
  | step_setSearch st value :
      step st (setSearch st value).

(** ** Sample data *)

Definition acme : Folder := mkFolder "a" None "Acme" 1.
Definition billing : Folder := mkFolder "b" (Some "a") "Billing" 2.
Definition archive : Folder := mkFolder "c" (Some "b") "Archive" 3.
Definition globex : Folder := mkFolder "g" None "Globex" 4.
Definition orphan : Folder := mkFolder "o" (Some "gone") "Orphan" 5.
Definition loop1 : Folder := mkFolder "x" (Some "y") "X" 6.
Definition loop2 : Folder := mkFolder "y" (Some "x") "Y" 7.

Definition invoice : Note := mkNote "n1" "b" "Invoice #1" "Due in MAY" 10 100.
Definition memo : Note := mkNote "n2" "g" "Memo" "call back" 11 200.
Definition receipt : Note := mkNote "n3" "c" "Receipt" "paid invoice" 12 100.

Definition sample_folders : list Folder := [acme; billing; archive; globex].
Definition sample_notes : list Note := [invoice; memo; receipt].

Definition sample_state : State :=
  mkState sample_folders sample_notes "b" (Some "n1") (Some "b") "  Ledger " "INV".

Definition sample_all : State :=
  mkState sample_folders sample_notes "all" None None "" "".



Definition nameless : Folder := mkFolder "" None "Root" 8.
Definition kid : Folder := mkFolder "k" (Some "") "Kid" 9.

(** Folders exist, none of them top-level. *)
Definition orphan_state : State :=
  mkState [orphan] [] "all" None None "" "".

(** * Properties *)

(** ** Strings *)

Lemma truthy_false (s : string) : truthy s = false ↔ s = "".
Proof. destruct s; simpl; split; congruence. Qed.

Lemma truthy_true (s : string) : truthy s = true ↔ s ≠ "".
Proof. destruct s; simpl; split; congruence. Qed.


Lemma append_cons (c : N) (a b : string) :
  String c a ++ b = String c (a ++ b).
Proof. reflexivity. Qed.

Lemma append_nil_r (s : string) : s ++ "" = s.
Proof. induction s as [|c s IH]; [done|]. by rewrite append_cons, IH. Qed.










Lemma lower_unit_not_empty (c : N) : lower_unit c ≠ "".
Proof. unfold lower_unit. by repeat case_match. Qed.

Lemma toLowerCase_empty (s : string) : toLowerCase s = "" → s = "".
Proof.
  destruct s as [|c s]; [done|]. simpl.
  pose proof (lower_unit_not_empty c). by destruct (lower_unit c).
Qed.







(** ** Lists *)

Lemma elem_of_concat {A} (x : A) (ls : list (list A)) :
  x ∈ concat ls ↔ ∃ l, l ∈ ls ∧ x ∈ l.
Proof.
  induction ls as [|l ls IH]; simpl.
  - split; [by intros ?%elem_of_nil | by intros (l & ?%elem_of_nil & _)].
  - rewrite elem_of_app, IH. split.
    + intros [Hx | (l' & Hl' & Hx)].
      * exists l. split; [left | done].
      * exists l'. split; [by right | done].
    + intros (l' & [-> | Hl']%elem_of_cons & Hx); [by left | right; eauto].
Qed.

Lemma Forall2_elem_of_l {A B} (P : A → B → Prop) l k x :
  Forall2 P l k → x ∈ l → ∃ y, y ∈ k ∧ P x y.
Proof.
  induction 1 as [|a b l k Hab _ IH]; [by intros ?%elem_of_nil|].
  intros [-> | Hx]%elem_of_cons.
  - exists b. split; [left | done].
  - destruct (IH Hx) as (y & Hy & HP). exists y. split; [by right | done].
Qed.

Lemma Forall2_elem_of_r {A B} (P : A → B → Prop) l k y :
  Forall2 P l k → y ∈ k → ∃ x, x ∈ l ∧ P x y.
Proof.
  induction 1 as [|a b l k Hab _ IH]; [by intros ?%elem_of_nil|].
  intros [-> | Hy]%elem_of_cons.
  - exists a. split; [left | done].
  - destruct (IH Hy) as (x & Hx & HP). exists x. split; [by right | done].
Qed.

Lemma find_Some_inv {A} (p : A → bool) (xs : list A) (x : A) :
  find p xs = Some x → x ∈ xs ∧ p x = true.
Proof.
  induction xs as [|a xs IH]; simpl; [done|].
  destruct (p a) eqn:Hpa.
  - intros [= ->]. split; [left | done].
  - intros [Hin Hp]%IH. split; [by right | done].
Qed.

Lemma find_None_inv {A} (p : A → bool) (xs : list A) :
  find p xs = None ↔ ∀ x, x ∈ xs → p x = false.
Proof.
  induction xs as [|a xs IH]; simpl.
  - split; [by intros _ x ?%elem_of_nil | done].
  - destruct (p a) eqn:Hpa.
    + split; [done|]. intros H. specialize (H a). rewrite Hpa in H.
      discriminate H. left.
    + rewrite IH. split.
      * intros H x [-> | Hx]%elem_of_cons; auto.
      * intros H x Hx. apply H. by right.
Qed.

(** ** [getFolderAndDescendants] *)

Lemma children_spec (fs : list Folder) (p : string) (f : Folder) :
  f ∈ filter (λ f, f_parentId f = Some p) fs ↔ f ∈ fs ∧ f_parentId f = Some p.
Proof. rewrite list_elem_of_filter. tauto. Qed.

Lemma child_link_children (fs : list Folder) (p c : string) :
  child_link fs p c ↔ ∃ f, f ∈ filter (λ f, f_parentId f = Some p) fs ∧ f_id f = c.
Proof.
  unfold child_link. split; intros (f & H); exists f;
    rewrite children_spec in *; tauto.
Qed.

(** One unfolding of the recursion. *)
Lemma getFolderAndDescendants_Some (fuel : nat) (fs : list Folder) (id : string) l :
  getFolderAndDescendants (S fuel) fs id = Some l ↔
  ∃ sub,
    Forall2 (λ c r, getFolderAndDescendants fuel fs (f_id c) = Some r)
            (filter (λ f, f_parentId f = Some id) fs) sub
    ∧ l = id :: concat sub.
Proof.
  simpl. split.
  - intros H. apply bind_Some in H as (sub & Hsub & [= <-]).
    exists sub. split; [by apply mapM_Some_1 | done].
  - intros (sub & Hsub & ->). apply bind_Some. exists sub.
    split; [by apply mapM_Some_2 | done].
Qed.

Lemma getFolderAndDescendants_is_Some (fuel : nat) (fs : list Folder) (id : string) :
  (∀ c, child_link fs id c → is_Some (getFolderAndDescendants fuel fs c)) →
  is_Some (getFolderAndDescendants (S fuel) fs id).
Proof.
  intros Hc. simpl.
  destruct (mapM_is_Some_2
    (λ c, getFolderAndDescendants fuel fs (f_id c))
    (filter (λ f, f_parentId f = Some id) fs)) as [sub Hsub].
  - apply Forall_forall. intros f Hf. apply Hc.
    apply child_link_children. by exists f.
  - rewrite Hsub. by eexists.
Qed.

(** More fuel does not change a result. *)
Lemma getFolderAndDescendants_mono (fuel fuel' : nat) (fs : list Folder) (id : string) l :
  (fuel ≤ fuel')%nat →
  getFolderAndDescendants fuel fs id = Some l →
  getFolderAndDescendants fuel' fs id = Some l.
Proof.
  revert fuel' id l. induction fuel as [|fuel IH]; intros fuel' id l Hle; [done|].
  destruct fuel' as [|fuel']; [lia|].
  rewrite !getFolderAndDescendants_Some. intros (sub & Hsub & ->).
  exists sub. split; [|done].
  eapply Forall2_impl; [exact Hsub|]. intros c r. apply IH. lia.
Qed.

Lemma getFolderAndDescendants_det (n m : nat) (fs : list Folder) (id : string) l k :
  getFolderAndDescendants n fs id = Some l →
  getFolderAndDescendants m fs id = Some k →
  l = k.
Proof.
  intros Hl Hk.
  apply (getFolderAndDescendants_mono n (n `max` m)) in Hl; [|lia].
  apply (getFolderAndDescendants_mono m (n `max` m)) in Hk; [|lia].
  congruence.
Qed.

(** The ids returned are the ids reachable along parentId links. *)
Lemma getFolderAndDescendants_reachable (fuel : nat) (fs : list Folder) (id : string) l :
  getFolderAndDescendants fuel fs id = Some l →
  ∀ y, y ∈ l ↔ reachable fs id y.
Proof.
  unfold reachable. revert id l.
  induction fuel as [|fuel IH]; intros id l; [done|].
  rewrite getFolderAndDescendants_Some. intros (sub & Hsub & ->) y.
  rewrite elem_of_cons, elem_of_concat. split.
  - intros [-> | (r & Hr & Hy)]; [done|].
    destruct (Forall2_elem_of_r _ _ _ _ Hsub Hr) as (c & Hc & Hrun).
    apply rtc_l with (f_id c).
    + apply child_link_children. by exists c.
    + by apply (IH _ _ Hrun).
  - intros [-> | (c & Hlink & Hrest)]%rtc_inv; [by left | right].
    apply child_link_children in Hlink as (f & Hf & <-).
    destruct (Forall2_elem_of_l _ _ _ _ Hsub Hf) as (r & Hr & Hrun).
    exists r. split; [done|]. by apply (IH _ _ Hrun).
Qed.

(** ** Termination *)

Lemma size_list_to_set_le (l : list string) :
  (size (list_to_set l : gset string) ≤ length l)%nat.
Proof.
  induction l as [|x l IH].
  - by rewrite list_to_set_nil, size_empty.
  - rewrite list_to_set_cons, size_union_alt, size_singleton. simpl.
    assert (size (list_to_set l ∖ {[x]} : gset string)
            ≤ size (list_to_set l : gset string))%nat
      by (by apply subseteq_size, subseteq_difference_l).
    lia.
Qed.

Lemma child_link_is_folder (fs : list Folder) (p c : string) :
  child_link fs p c → c ∈ (list_to_set (f_id <$> fs) : gset string).
Proof.
  intros (f & Hf & _ & <-). apply elem_of_list_to_set, list_elem_of_fmap. eauto.
Qed.

Lemma tc_child_link_is_folder (fs : list Folder) (p c : string) :
  tc (child_link fs) p c → c ∈ (list_to_set (f_id <$> fs) : gset string).
Proof.
  induction 1 as [p c Hlink | p y c _ _ IH]; [|done].
  by eapply child_link_is_folder.
Qed.

(** Below [id] every id lies in [avail], and no path repeats an id: a call
    at depth [size avail + 1] has no children left to visit. *)
Lemma getFolderAndDescendants_within (fs : list Folder) (n : nat) :
  ∀ (avail : gset string) (id : string),
    (size avail ≤ n)%nat →
    (∀ y, tc (child_link fs) id y → y ∈ avail) →
    acyclic_below fs id →
    is_Some (getFolderAndDescendants (S n) fs id).
Proof.
  induction n as [|n IH]; intros avail id Hsize Havail Hacyc;
    apply getFolderAndDescendants_is_Some; intros c Hc.
  - assert (c ∈ avail) as Hin by (apply Havail; by apply tc_once).
    assert (size avail = 0)%nat as Hz by lia.
    apply size_empty_inv in Hz. rewrite Hz in Hin.
    by apply not_elem_of_empty in Hin.
  - assert (c ∈ avail) as Hin by (apply Havail; by apply tc_once).
    apply (IH (avail ∖ {[c]})).
    + rewrite size_difference by (by apply singleton_subseteq_l).
      rewrite size_singleton.
      assert (size avail ≠ 0)%nat.
      { intros Hz%size_empty_inv. rewrite Hz in Hin.
        by apply not_elem_of_empty in Hin. }
      lia.
    + intros y Hy. apply elem_of_difference. split.
      * apply Havail. by eapply tc_l.
      * intros ->%elem_of_singleton.
        apply (Hacyc c); [by apply rtc_once | done].
    + intros x Hx. apply Hacyc. by eapply rtc_l.
Qed.

Lemma getFolderAndDescendants_total (fs : list Folder) (id : string) :
  acyclic_below fs id →
  ∃ l, getFolderAndDescendants (S (length fs)) fs id = Some l.
Proof.
  intros Hacyc.
  apply (getFolderAndDescendants_within fs (length fs)
           (list_to_set (f_id <$> fs)) id); [| |done].
  - etrans; [apply size_list_to_set_le|]. by rewrite length_fmap.
  - intros y. apply tc_child_link_is_folder.
Qed.

Lemma acyclic_acyclic_below (fs : list Folder) (id : string) :
  acyclic fs → acyclic_below fs id.
Proof. intros Hacyc x _. apply Hacyc. Qed.

(** A call that returns has called each child with one unit less. *)
Lemma getFolderAndDescendants_child (fuel : nat) (fs : list Folder) (id c : string) :
  is_Some (getFolderAndDescendants (S fuel) fs id) →
  child_link fs id c →
  is_Some (getFolderAndDescendants fuel fs c).
Proof.
  intros [l Hl] Hc.
  apply getFolderAndDescendants_Some in Hl as (sub & Hsub & _).
  apply child_link_children in Hc as (f & Hf & <-).
  destruct (Forall2_elem_of_l _ _ _ _ Hsub Hf) as (r & _ & Hr). by exists r.
Qed.

Lemma getFolderAndDescendants_below (fs : list Folder) (x y : string) :
  tc (child_link fs) x y →
  ∀ n, is_Some (getFolderAndDescendants n fs x) →
  ∃ m, (m < n)%nat ∧ is_Some (getFolderAndDescendants m fs y).
Proof.
  induction 1 as [x y Hlink | x z y Hlink _ IH]; intros [|n] Hn;
    try (by destruct Hn).
  - exists n. split; [lia|]. by eapply getFolderAndDescendants_child.
  - destruct (IH n) as (m & Hm & Hy).
    + by eapply getFolderAndDescendants_child.
    + exists m. split; [lia | done].
Qed.

(** On a cycle the recursion never comes back, whatever the fuel. *)
Lemma getFolderAndDescendants_cycle (fs : list Folder) (x : string) (n : nat) :
  tc (child_link fs) x x → getFolderAndDescendants n fs x = None.
Proof.
  intros Hcyc. induction n as [n IH] using lt_wf_ind.
  destruct (getFolderAndDescendants n fs x) as [l|] eqn:Hl; [|done].
  destruct (getFolderAndDescendants_below fs x x Hcyc n) as (m & Hm & [k Hk]);
    [by exists l|].
  rewrite (IH m Hm) in Hk. discriminate.
Qed.


(** A check of acyclicity that runs: every folder's own closure comes back. *)
Lemma acyclic_check (fs : list Folder) :
  forallb (λ f, bool_decide
    (is_Some (getFolderAndDescendants (S (length fs)) fs (f_id f)))) fs = true →
  acyclic fs.
Proof.
  intros Hall x Hcyc.
  pose proof (tc_child_link_is_folder _ _ _ Hcyc) as Hx.
  apply elem_of_list_to_set, list_elem_of_fmap in Hx as (f & -> & Hf).
  rewrite forallb_forall in Hall.
  specialize (Hall f (proj1 (list_elem_of_In _ _) Hf)).
  apply bool_decide_eq_true in Hall as [l Hl].
  by rewrite getFolderAndDescendants_cycle in Hl.
Qed.

(** C4: whenever [getFolderAndDescendants] returns for [id], the ids it
    returns include [id] and are exactly the ids reachable from [id] along
    parentId links; and it does return, at depth [length fs + 1], when no
    cycle of links lies below [id]. *)
Theorem getFolderAndDescendants_exact (fs : list Folder) (id : string) :
  (∀ fuel l, getFolderAndDescendants fuel fs id = Some l →
     id ∈ l ∧ ∀ y, y ∈ l ↔ reachable fs id y)
  ∧ (acyclic_below fs id →
     ∃ l, getFolderAndDescendants (S (length fs)) fs id = Some l).
Proof.
  split.
  - intros fuel l Hl. split.
    + apply (getFolderAndDescendants_reachable _ _ _ _ Hl). apply rtc_refl.
    + by apply (getFolderAndDescendants_reachable fuel).
  - apply getFolderAndDescendants_total.
Qed.

Lemma getFolderAndDescendants_exact_witness :
  "a" ∈ ["a"; "b"; "c"] ∧ ∀ y, y ∈ ["a"; "b"; "c"] ↔ reachable sample_folders "a" y.
Proof.
  apply (proj1 (getFolderAndDescendants_exact sample_folders "a") 3).
  vm_compute. reflexivity.
Defined.

(** C5: when the parentId relation of the folder list is acyclic,
    [getFolderAndDescendants] returns for every folder id, and a recursion
    depth of [length fs + 1] is enough. *)
Theorem getFolderAndDescendants_terminates (fs : list Folder) (id : string) :
  acyclic fs →
  ∃ l, getFolderAndDescendants (S (length fs)) fs id = Some l.
Proof.
  intros Hacyc. by apply getFolderAndDescendants_total, acyclic_acyclic_below.
Qed.

Lemma getFolderAndDescendants_terminates_witness :
  ∃ l, getFolderAndDescendants (S (length sample_folders)) sample_folders "a" = Some l.
Proof.
  apply (getFolderAndDescendants_terminates sample_folders "a").
  apply acyclic_check. vm_compute. reflexivity.
Defined.

(** The precondition of C5 cannot be dropped: on the two-folder loop the
    recursion from ["x"] never comes back. *)
Example getFolderAndDescendants_loop (fuel : nat) :
  getFolderAndDescendants fuel [loop1; loop2] "x" = None.
Proof.
  apply getFolderAndDescendants_cycle.
  apply tc_l with "y"; [|apply tc_once].
  - exists loop2. split; [by right; left | done].
  - exists loop1. split; [by left | done].
Qed.

(** ** [deleteFolder] *)

Lemma deleteFolder_Some (fuel : nat) (st st' : State) (id : string) :
  deleteFolder fuel st id = Some st' →
  ∃ ds,
    getFolderAndDescendants fuel (folders st) id = Some ds
    ∧ folders st' = filter (λ f, f_id f ∉ ds) (folders st)
    ∧ notes st' = filter (λ n, n_folderId n ∉ ds) (notes st)
    ∧ activeFolderId st' =
        (if decide (activeFolderId st ∈ ds) then "all" else activeFolderId st)
    ∧ activeNoteId st' =
        (if decide (activeFolderId st ∈ ds) then None else activeNoteId st).
Proof.
  unfold deleteFolder. intros H.
  apply bind_Some in H as (ds & Hds & [= <-]). exists ds. simpl.
  split; [done|].
  split; [apply list_filter_iff; intros f; by rewrite elem_of_list_to_set|].
  split; [apply list_filter_iff; intros n; by rewrite elem_of_list_to_set|].
  split; repeat case_decide; try done;
    rewrite elem_of_list_to_set in *; contradiction.
Qed.

Lemma deleteFolder_total (st : State) (id : string) :
  acyclic_below (folders st) id →
  ∃ st', deleteFolder (S (length (folders st))) st id = Some st'.
Proof.
  intros [ds Hds]%getFolderAndDescendants_total.
  unfold deleteFolder. rewrite Hds. by eexists.
Qed.

(** C1: a [deleteFolder id] that returns keeps, in both collections and in
    their order, exactly the records outside the closure of [id]: the
    folders whose id is not in it and the notes whose folderId is not in it,
    each unchanged; the others are gone.  It returns when no cycle of
    parentId links lies below [id]. *)
Theorem deleteFolder_exact (st : State) (id : string) :
  (∀ fuel st', deleteFolder fuel st id = Some st' →
     ∃ ds, getFolderAndDescendants fuel (folders st) id = Some ds
       ∧ folders st' = filter (λ f, f_id f ∉ ds) (folders st)
       ∧ notes st' = filter (λ n, n_folderId n ∉ ds) (notes st)
       ∧ (∀ f, f ∈ folders st' ↔ f ∈ folders st ∧ f_id f ∉ ds)
       ∧ (∀ n, n ∈ notes st' ↔ n ∈ notes st ∧ n_folderId n ∉ ds))
  ∧ (acyclic_below (folders st) id →
     ∃ st', deleteFolder (S (length (folders st))) st id = Some st').
Proof.
  split; [|apply deleteFolder_total].
  intros fuel st' (ds & Hds & Hf & Hn & _)%deleteFolder_Some.
  exists ds. do 3 (split; [done|]).
  split; intros x; [rewrite Hf | rewrite Hn]; rewrite list_elem_of_filter; tauto.
Qed.

Lemma deleteFolder_exact_witness :
  ∃ ds, getFolderAndDescendants 3 sample_folders "b" = Some ds
    ∧ [acme; globex] = filter (λ f, f_id f ∉ ds) sample_folders
    ∧ [memo] = filter (λ n, n_folderId n ∉ ds) sample_notes
    ∧ (∀ f, f ∈ [acme; globex] ↔ f ∈ sample_folders ∧ f_id f ∉ ds)
    ∧ (∀ n, n ∈ [memo] ↔ n ∈ sample_notes ∧ n_folderId n ∉ ds).
Proof.
  apply (proj1 (deleteFolder_exact sample_state "b") 3
           (mkState [acme; globex] [memo] "all" None (Some "b") "  Ledger " "INV")).
  vm_compute. reflexivity.
Defined.

(** A surviving folder's parent survives, and so does a surviving note's
    folder: the closure is closed under parentId links. *)
Lemma closure_closed (fuel : nat) (fs : list Folder) (id : string) ds f p :
  getFolderAndDescendants fuel fs id = Some ds →
  f ∈ fs → f_parentId f = Some p → p ∈ ds → f_id f ∈ ds.
Proof.
  intros Hds Hf Hp Hin.
  apply (getFolderAndDescendants_reachable _ _ _ _ Hds).
  apply (getFolderAndDescendants_reachable _ _ _ _ Hds) in Hin.
  eapply rtc_r; [exact Hin|]. by exists f.
Qed.

Lemma parents_exist_check (fs : list Folder) :
  forallb (λ f, match f_parentId f with
                | None => true
                | Some p => bool_decide (p ∈ f_id <$> fs)
                end) fs = true →
  parents_exist fs.
Proof.
  rewrite forallb_forall. intros Hall f p Hf Hp.
  specialize (Hall f (proj1 (list_elem_of_In _ _) Hf)). rewrite Hp in Hall.
  apply bool_decide_eq_true, list_elem_of_fmap in Hall as (g & -> & Hg). eauto.
Qed.

Lemma owners_exist_check (fs : list Folder) (ns : list Note) :
  forallb (λ n, bool_decide (n_folderId n ∈ f_id <$> fs)) ns = true →
  owners_exist fs ns.
Proof.
  rewrite forallb_forall. intros Hall n Hn.
  specialize (Hall n (proj1 (list_elem_of_In _ _) Hn)).
  apply bool_decide_eq_true, list_elem_of_fmap in Hall as (g & Hg & Hin). eauto.
Qed.

(** C2: from a state with referential integrity, a [deleteFolder id] that
    returns leaves a state with referential integrity: no remaining folder
    has a dangling parentId and no remaining note a dangling folderId.  It
    returns when no cycle of parentId links lies below [id]. *)
Theorem deleteFolder_preserves_integrity (st : State) (id : string) :
  referential_integrity st →
  (∀ fuel st', deleteFolder fuel st id = Some st' → referential_integrity st')
  ∧ (acyclic_below (folders st) id →
     ∃ st', deleteFolder (S (length (folders st))) st id = Some st').
Proof.
  intros [Hpar Hown]. split; [|apply deleteFolder_total].
  intros fuel st' (ds & Hds & Hf & Hn & _)%deleteFolder_Some.
  unfold referential_integrity, parents_exist, owners_exist.
  rewrite Hf, Hn. split.
  - intros f p [Hkeep Hin]%list_elem_of_filter Hp.
    destruct (Hpar f p Hin Hp) as (g & Hg & <-).
    exists g. split; [|done]. apply list_elem_of_filter. split; [|done].
    intros Hdel. apply Hkeep. by eapply closure_closed.
  - intros n [Hkeep Hin]%list_elem_of_filter.
    destruct (Hown n Hin) as (g & Hg & Heq).
    exists g. split; [|done]. apply list_elem_of_filter. split; [|done].
    by rewrite Heq.
Qed.

Lemma deleteFolder_preserves_integrity_witness :
  referential_integrity
    (mkState [acme; globex] [memo] "all" None (Some "b") "  Ledger " "INV").
Proof.
  apply (proj1 (deleteFolder_preserves_integrity sample_state "b"
    (conj (parents_exist_check sample_folders eq_refl)
          (owners_exist_check sample_folders sample_notes eq_refl))) 3).
  vm_compute. reflexivity.
Defined.

(** C6: a [deleteFolder id] that returns resets the active folder to
    ["all"] and clears the active note when the active folder id lies in the
    closure of [id], and leaves both selections as they were otherwise.  It
    returns when no cycle of parentId links lies below [id]. *)
Theorem deleteFolder_selection (st : State) (id : string) :
  (∀ fuel st', deleteFolder fuel st id = Some st' →
     ∃ ds, getFolderAndDescendants fuel (folders st) id = Some ds
       ∧ (activeFolderId st ∈ ds →
            activeFolderId st' = "all" ∧ activeNoteId st' = None)
       ∧ (activeFolderId st ∉ ds →
            activeFolderId st' = activeFolderId st
            ∧ activeNoteId st' = activeNoteId st))
  ∧ (acyclic_below (folders st) id →
     ∃ st', deleteFolder (S (length (folders st))) st id = Some st').
Proof.
  split; [|apply deleteFolder_total].
  intros fuel st' (ds & Hds & _ & _ & Haf & Han)%deleteFolder_Some.
  exists ds. rewrite Haf, Han. split; [done|].
  split; intros Hin; by case_decide.
Qed.

Lemma deleteFolder_selection_witness :
  ∃ st', deleteFolder (S (length sample_folders)) sample_state "a" = Some st'
    ∧ activeFolderId st' = "all" ∧ activeNoteId st' = None.
Proof.
  destruct (proj2 (deleteFolder_selection sample_state "a")) as [st' Hst'].
  - apply acyclic_acyclic_below, acyclic_check. vm_compute. reflexivity.
  - exists st'. split; [done|].
    destruct (proj1 (deleteFolder_selection sample_state "a") _ _ Hst')
      as (ds & Hds & Hin & _).
    apply Hin. vm_compute in Hds. injection Hds as <-. right. left.
Defined.

(** ** [commitRename] *)

Lemma trim_empty : trim "" = "".
Proof. reflexivity. Qed.

Lemma trim_blank : trim "   " = "".
Proof. reflexivity. Qed.

Lemma trim_sample : trim "  Ledger " = "Ledger".
Proof. reflexivity. Qed.

Lemma renameFolder_folders (st : State) (id newName : string) :
  folders (renameFolder st id newName) =
  (λ f, if decide (f_id f = id)
        then mkFolder (f_id f) (f_parentId f)
               (if truthy (trim newName) then trim newName else "Untitled")
               (f_createdAt f)
        else f) <$> folders st.
Proof. reflexivity. Qed.

(** C7: after [renameFolder id newName] on a store that holds [id], every
    folder with that id is named [newName.trim()] when that is not empty and
    ["Untitled"] when it is, so never the empty string; the id is still in
    the store; and a second [renameFolder id newName] changes nothing. *)
Theorem renameFolder_name (st : State) (id newName : string) :
  (∃ f, f ∈ folders st ∧ f_id f = id) →
  (∀ f', f' ∈ folders (renameFolder st id newName) → f_id f' = id →
     (trim newName ≠ "" → f_name f' = trim newName)
     ∧ (trim newName = "" → f_name f' = "Untitled")
     ∧ f_name f' ≠ "")
  ∧ (∃ f', f' ∈ folders (renameFolder st id newName) ∧ f_id f' = id)
  ∧ renameFolder (renameFolder st id newName) id newName
    = renameFolder st id newName.
Proof.
  intros (f & Hf & Hid). split; [|split].
  - intros f' Hf' Hid'. rewrite renameFolder_folders in Hf'.
    apply list_elem_of_fmap in Hf' as (g & -> & Hg).
    destruct (decide (f_id g = id)) as [Hg_id | Hg_id]; [|done]. simpl.
    destruct (truthy (trim newName)) eqn:Ht.
    + apply truthy_true in Ht. done.
    + apply truthy_false in Ht. done.
  - rewrite renameFolder_folders.
    exists (mkFolder (f_id f) (f_parentId f)
              (if truthy (trim newName) then trim newName else "Untitled")
              (f_createdAt f)).
    split; [|done]. apply list_elem_of_fmap. exists f.
    by rewrite decide_True.
  - unfold renameFolder, commitRename, setFolderDraft. simpl. f_equal.
    rewrite <-list_fmap_compose. apply list_fmap_ext. intros _ g _. simpl.
    destruct (decide (f_id g = id)) as [Hg | Hg]; simpl.
    + by rewrite decide_True.
    + by rewrite decide_False.
Qed.

Lemma renameFolder_name_witness :
  ∃ f', f' ∈ folders (renameFolder sample_state "b" "  Ledger ") ∧ f_id f' = "b".
Proof.
  apply (renameFolder_name sample_state "b" "  Ledger ").
  exists billing. split; [|reflexivity]. vm_compute. right. left.
Defined.

(** The two inputs the specification names both give the fallback. *)
Example renameFolder_blank :
  folders (renameFolder sample_state "b" "") =
    [acme; mkFolder "b" (Some "a") "Untitled" 2; archive; globex]
  ∧ folders (renameFolder sample_state "b" "   ") =
    [acme; mkFolder "b" (Some "a") "Untitled" 2; archive; globex].
Proof. split; reflexivity. Qed.

(** A rename touches no other folder. *)
Lemma renameFolder_others (st : State) (id newName : string) (f : Folder) :
  f ∈ folders st → f_id f ≠ id → f ∈ folders (renameFolder st id newName).
Proof.
  intros Hf Hid. rewrite renameFolder_folders. apply list_elem_of_fmap.
  exists f. by rewrite decide_False.
Qed.

(** ** Unknown ids *)

(** C8: for an id that no note carries, [updateNote] and [deleteNote] return
    the note collection as it was; for an id that no folder carries,
    [renameFolder] returns the folder collection as it was.  The three
    operations are total: there is no error to signal. *)
Theorem unknown_id_noop (st : State) (id : string) :
  ((∀ n, n ∈ notes st → n_id n ≠ id) →
     (∀ patch now, notes (updateNote st id patch now) = notes st)
     ∧ notes (deleteNote st id) = notes st)
  ∧ ((∀ f, f ∈ folders st → f_id f ≠ id) →
     ∀ newName, folders (renameFolder st id newName) = folders st).
Proof.
  split.
  - intros Hnone. split.
    + intros patch now. simpl.
      rewrite <-(list_fmap_id (notes st)) at 2.
      apply list_fmap_ext. intros _ n Hn%list_elem_of_lookup_2.
      by rewrite decide_False by auto.
    + simpl. induction (notes st) as [|n ns IH]; [done|].
      rewrite filter_cons_True by (apply Hnone; left).
      f_equal. apply IH. intros m Hm. apply Hnone. by right.
  - intros Hnone newName. rewrite renameFolder_folders.
    rewrite <-(list_fmap_id (folders st)) at 2.
    apply list_fmap_ext. intros _ f Hf%list_elem_of_lookup_2.
    by rewrite decide_False by auto.
Qed.

Lemma unknown_id_noop_witness :
  ((∀ patch now, notes (updateNote sample_state "zz" patch now) = notes sample_state)
   ∧ notes (deleteNote sample_state "zz") = notes sample_state)
  ∧ (∀ newName, folders (renameFolder sample_state "zz" newName) = folders sample_state).
Proof.
  destruct (unknown_id_noop sample_state "zz") as [Hnotes Hfolders].
  split; [apply Hnotes | apply Hfolders].
  - intros n Hn. apply list_elem_of_In in Hn. simpl in Hn.
    destruct Hn as [<- | [<- | [<- | []]]]; discriminate.
  - intros f Hf. apply list_elem_of_In in Hf. simpl in Hf.
    destruct Hf as [<- | [<- | [<- | [<- | []]]]]; discriminate.
Defined.

(** ** [folderPath] *)

Lemma find_by_id (fs : list Folder) (fid : string) (f : Folder) :
  find (λ f, bool_decide (f_id f = fid)) fs = Some f → f ∈ fs ∧ f_id f = fid.
Proof. intros [Hin Hp%bool_decide_eq_true]%find_Some_inv. done. Qed.

Lemma find_by_id_None (fs : list Folder) (fid : string) :
  find (λ f, bool_decide (f_id f = fid)) fs = None ↔ ∀ f, f ∈ fs → f_id f ≠ fid.
Proof.
  rewrite find_None_inv. split; intros H f Hf.
  - by apply (bool_decide_eq_false_1 (f_id f = fid)), H.
  - by apply bool_decide_eq_false_2, H.
Qed.

Lemma find_parent (fs : list Folder) (p : string) :
  find (λ f, bool_decide (Some (f_id f) = Some p)) fs
  = find (λ f, bool_decide (f_id f = p)) fs.
Proof.
  induction fs as [|f fs IH]; simpl; [done|]. rewrite IH.
  destruct (decide (f_id f = p)) as [Heq | Hne].
  - by rewrite !bool_decide_eq_true_2 by congruence.
  - by rewrite !bool_decide_eq_false_2 by congruence.
Qed.

Lemma append_length (a b : string) :
  strlen (a ++ b) = (strlen a + strlen b)%nat.
Proof.
  induction a as [|c a IH]; [done|]. rewrite append_cons. simpl. by rewrite IH.
Qed.

(** C9, as stated, fails: the folder ["o"] exists and carries a parentId,
    and its path is its bare name, not a parent name followed by [" / "] and
    the name: no folder has the id its parentId names. *)
Lemma folderPath_orphan :
  find (λ f, bool_decide (f_id f = "o")) [orphan] = Some orphan
  ∧ f_parentId orphan = Some "gone"
  ∧ folderPath [orphan] "o" = "Orphan"
  ∧ ¬ ∃ parentName, folderPath [orphan] "o" = parentName ++ " / " ++ f_name orphan.
Proof.
  do 3 (split; [reflexivity|]).
  intros [parentName H]. apply (f_equal strlen) in H.
  rewrite append_length in H.
  change (strlen (folderPath [orphan] "o")) with 6%nat in H.
  change (strlen (" / " ++ f_name orphan)) with 9%nat in H.
  lia.
Qed.

(** The test of the parentId is a truthiness test: under a folder whose id
    is the empty string the path is the bare name as well. *)
Example folderPath_empty_parent_id :
  folderPath [nameless; kid] "k" = "Kid".
Proof. reflexivity. Qed.

(** C9, amended: [folderPath] is ["Unknown"] when no folder has the id;
    otherwise, for the first folder with the id, it is the folder's name
    when the parentId is absent or names no folder, and is the parent's
    name, [" / "] and the folder's name when the parentId is a non-empty id
    and [parent] is the first folder with it. *)
Theorem folderPath_cases (fs : list Folder) (fid : string) :
  (find (λ f, bool_decide (f_id f = fid)) fs = None →
     folderPath fs fid = "Unknown")
  ∧ (∀ folder,
       find (λ f, bool_decide (f_id f = fid)) fs = Some folder →
       (f_parentId folder = None → folderPath fs fid = f_name folder)
       ∧ (∀ p parent,
            f_parentId folder = Some p → p ≠ "" →
            find (λ f, bool_decide (f_id f = p)) fs = Some parent →
            folderPath fs fid = f_name parent ++ " / " ++ f_name folder)
       ∧ (∀ p,
            f_parentId folder = Some p →
            find (λ f, bool_decide (f_id f = p)) fs = None →
            folderPath fs fid = f_name folder)).
Proof.
  unfold folderPath. split.
  - by intros ->.
  - intros folder ->. split; [|split].
    + by intros ->.
    + intros p parent Hp Hne Hparent. rewrite Hp. simpl.
      apply truthy_true in Hne. rewrite Hne.
      by rewrite find_parent, Hparent.
    + intros p Hp Hnone. rewrite Hp. simpl.
      rewrite find_parent, Hnone. by destruct (truthy p).
Qed.

Lemma folderPath_cases_witness :
  folderPath sample_folders "b" = f_name acme ++ " / " ++ f_name billing
  ∧ folderPath [orphan] "o" = f_name orphan
  ∧ folderPath [] "b" = "Unknown".
Proof.
  split; [|split].
  - apply (proj1 (proj2 (proj2 (folderPath_cases sample_folders "b")
                                  billing eq_refl)) "a" acme);
      [reflexivity | discriminate | reflexivity].
  - apply (proj2 (proj2 (proj2 (folderPath_cases [orphan] "o")
                                  orphan eq_refl)) "gone");
      [reflexivity | reflexivity].
  - apply (proj1 (folderPath_cases [] "b")). reflexivity.
Defined.

(** The scenario of the specification. *)
Example folderPath_sample :
  folderPath sample_folders "b" = "Acme / Billing"
  ∧ folderPath sample_folders "a" = "Acme"
  ∧ folderPath sample_folders "c" = "Billing / Archive"
  ∧ folderPath sample_folders "nope" = "Unknown".
Proof. repeat split; reflexivity. Qed.

(** ** [addNote] *)

Lemma find_first {A} (p : A → bool) (pre post : list A) (x : A) :
  p x = true → (∀ y, y ∈ pre → p y = false) → find p (pre ++ x :: post) = Some x.
Proof.
  intros Hx. induction pre as [|a pre IH]; intros Hpre; simpl.
  - by rewrite Hx.
  - rewrite (Hpre a) by left. apply IH. intros y Hy. apply Hpre. by right.
Qed.

(** C10, as stated, fails: under the sentinel and with a folder in the list,
    [addNote] creates no note when none of the folders is top-level. *)
Lemma addNote_no_top_level :
  activeFolderId orphan_state = "all"
  ∧ folders orphan_state ≠ []
  ∧ addNote orphan_state "n9" 50 50 = orphan_state
  ∧ notes (addNote orphan_state "n9" 50 50) = [].
Proof. repeat split; (reflexivity || discriminate). Qed.

(** C10, amended: under the sentinel ["all"], [addNote] changes nothing when
    the folder list is empty or holds no top-level folder; when [top] is the
    first top-level folder of the list, the new note is put in front of the
    notes with [top]'s id as its folderId, [top] becomes the active folder
    and the new note the active note. *)
Theorem addNote_under_all (st : State) (newId : string) (now1 now2 : Z) :
  activeFolderId st = "all" →
  (folders st = [] → addNote st newId now1 now2 = st)
  ∧ ((∀ f, f ∈ folders st → f_parentId f ≠ None) →
     addNote st newId now1 now2 = st)
  ∧ (∀ (pre : list Folder) (top : Folder) (post : list Folder),
       folders st = (pre ++ top :: post)%list →
       f_parentId top = None →
       (∀ f, f ∈ pre → f_parentId f ≠ None) →
       notes (addNote st newId now1 now2)
         = newNote newId (f_id top) now1 now2 :: notes st
       ∧ n_folderId (newNote newId (f_id top) now1 now2) = f_id top
       ∧ activeFolderId (addNote st newId now1 now2) = f_id top
       ∧ activeNoteId (addNote st newId now1 now2) = Some newId
       ∧ folders (addNote st newId now1 now2) = folders st).
Proof.
  intros Hall. unfold addNote. rewrite decide_True by done.
  split; [|split].
  - intros ->. done.
  - intros Hnone. case_decide; [done|].
    replace (find _ (folders st)) with (@None Folder); [done|].
    symmetry. apply find_None_inv. intros f Hf.
    by apply bool_decide_eq_false_2, Hnone.
  - intros pre top post Hfs Htop Hpre. rewrite Hfs.
    rewrite decide_False by (rewrite length_app; simpl; lia).
    rewrite find_first.
    + done.
    + by apply bool_decide_eq_true_2.
    + intros f Hf. by apply bool_decide_eq_false_2, Hpre.
Qed.

Lemma addNote_under_all_witness :
  notes (addNote sample_all "n9" 50 51) = newNote "n9" "a" 50 51 :: sample_notes
  ∧ n_folderId (newNote "n9" "a" 50 51) = "a"
  ∧ activeFolderId (addNote sample_all "n9" 50 51) = "a"
  ∧ activeNoteId (addNote sample_all "n9" 50 51) = Some "n9"
  ∧ folders (addNote sample_all "n9" 50 51) = sample_folders.
Proof.
  apply (proj2 (proj2 (addNote_under_all sample_all "n9" 50 51 eq_refl))
           [] acme [billing; archive; globex]).
  - reflexivity.
  - reflexivity.
  - intros f Hf. by apply elem_of_nil in Hf.
Defined.

(** With a folder selected, the note goes into that folder and the active
    folder stays. *)
Lemma addNote_in_folder (st : State) (newId : string) (now1 now2 : Z) :
  activeFolderId st ≠ "all" →
  notes (addNote st newId now1 now2)
    = newNote newId (activeFolderId st) now1 now2 :: notes st
  ∧ activeFolderId (addNote st newId now1 now2) = activeFolderId st.
Proof. intros Hne. unfold addNote. by rewrite decide_False. Qed.

(** ** [sort] *)

Lemma sort_insert_Permutation {A} (cmp : A → A → Z) (x : A) (l : list A) :
  sort_insert cmp x l ≡ₚ x :: l.
Proof.
  induction l as [|y l IH]; simpl; [done|].
  destruct (cmp x y <=? 0)%Z; [done|].
  rewrite IH. apply Permutation_swap.
Qed.

Lemma sort_Permutation {A} (cmp : A → A → Z) (l : list A) : sort cmp l ≡ₚ l.
Proof.
  induction l as [|x l IH]; simpl; [done|].
  by rewrite sort_insert_Permutation, IH.
Qed.

Lemma byUpdatedDesc_le (x y : Note) :
  (byUpdatedDesc x y <=? 0)%Z = true ↔ newer_or_same x y.
Proof. unfold byUpdatedDesc, newer_or_same. rewrite Z.leb_le. lia. Qed.

Lemma byUpdatedDesc_gt (x y : Note) :
  (byUpdatedDesc x y <=? 0)%Z = false ↔ (n_updatedAt x < n_updatedAt y)%Z.
Proof. unfold byUpdatedDesc. rewrite Z.leb_gt. lia. Qed.

Lemma newer_or_same_trans (x y z : Note) :
  newer_or_same x y → newer_or_same y z → newer_or_same x z.
Proof. unfold newer_or_same. lia. Qed.

Lemma sort_insert_sorted (x : Note) (l : list Note) :
  StronglySorted newer_or_same l →
  StronglySorted newer_or_same (sort_insert byUpdatedDesc x l).
Proof.
  induction 1 as [|y l Hl IH Hy]; simpl.
  - repeat constructor.
  - destruct (byUpdatedDesc x y <=? 0)%Z eqn:Hxy.
    + apply byUpdatedDesc_le in Hxy. constructor; [by constructor|].
      constructor; [done|].
      eapply Forall_impl; [exact Hy|]. intros z. by apply newer_or_same_trans.
    + apply byUpdatedDesc_gt in Hxy. constructor; [done|].
      rewrite sort_insert_Permutation. constructor; [|done].
      unfold newer_or_same. lia.
Qed.

Lemma sort_sorted (l : list Note) :
  StronglySorted newer_or_same (sort byUpdatedDesc l).
Proof.
  induction l as [|x l IH]; simpl; [constructor | by apply sort_insert_sorted].
Qed.



(** ** [visibleNotes] *)

Lemma visibleNotes_Some (fuel : nat) (st : State) (out : list Note) :
  visibleNotes fuel st = Some out →
  ∃ candidates,
    (activeFolderId st = "all" → candidates = notes st)
    ∧ (activeFolderId st ≠ "all" →
       ∃ ds, getFolderAndDescendants fuel (folders st) (activeFolderId st) = Some ds
         ∧ candidates = filter (λ n, n_folderId n ∈ ds) (notes st))
    ∧ out = sort byUpdatedDesc
              (filter (λ n, matchesSearch (search st) n) candidates).
Proof.
  unfold visibleNotes, activeFolderIds.
  destruct (decide (activeFolderId st = "all")) as [Hall | Hsel]; simpl.
  - intros [= <-]. exists (notes st). done.
  - intros H. apply bind_Some in H as (ids & Hids & [= <-]).
    apply bind_Some in Hids as (ds & Hds & [= <-]).
    exists (filter (λ n, n_folderId n ∈ ds) (notes st)).
    split; [done|]. split; [|].
    + intros _. exists ds. done.
    + do 2 f_equal. apply list_filter_iff. intros n.
      by rewrite elem_of_list_to_set.
Qed.

Lemma visibleNotes_total (st : State) :
  activeFolderId st = "all" ∨ acyclic_below (folders st) (activeFolderId st) →
  ∃ out, visibleNotes (S (length (folders st))) st = Some out.
Proof.
  unfold visibleNotes, activeFolderIds.
  destruct (decide (activeFolderId st = "all")) as [Hall | Hsel].
  - intros _. by eexists.
  - intros [Hall | [ds Hds]%getFolderAndDescendants_total]; [done|].
    rewrite Hds. by eexists.
Qed.





(** The search is blind to case on the letters below 256: ["inv"] finds the
    title ["INVOICE"]. *)
Example matchesSearch_case :
  matchesSearch "inv" (mkNote "n5" "a" "INVOICE" "" 1 1) = true
  ∧ letters_match "INV" "inv"
  ∧ ¬ letters_match "INV" "ink".
Proof.
  split; [reflexivity|]. split.
  - simpl. unfold case_pair. repeat split; right; left; split; reflexivity.
  - simpl. unfold case_pair. intros (_ & _ & [H | [[_ H] | [H _]]] & _);
      discriminate.
Qed.

(** Under ["b"] and the search text ["INV"] the two notes below ["b"] match,
    one by its title and one by its content, and keep their order: they
    were edited at the same time. *)
Example visibleNotes_sample :
  visibleNotes 3 sample_state = Some [invoice; receipt].
Proof. reflexivity. Qed.

(** Under the sentinel and with no search text every note is shown, the
    most recently edited first. *)
Example visibleNotes_sample_all :
  visibleNotes 0 sample_all = Some [memo; invoice; receipt].
Proof. reflexivity. Qed.

(** ** The scenario of the specification *)

(** Acme, Billing under it, one note in Billing: the badge of Acme counts
    the note, and deleting Acme removes the subfolders and their notes and
    resets the selection. *)
Example scenario_acme :
  noteCount 3 sample_state "a" = Some 2%nat
  ∧ deleteFolder 3 sample_state "a"
    = Some (mkState [globex] [memo] "all" None (Some "b") "  Ledger " "INV").
Proof. split; reflexivity. Qed.

(** * Further properties *)

(** ** The parentId relation under the folder operations *)

Lemma child_link_app (fs : list Folder) (f : Folder) (p c : string) :
  child_link (fs ++ [f]) p c ↔
  child_link fs p c ∨ (f_parentId f = Some p ∧ f_id f = c).
Proof.
  unfold child_link. split.
  - intros (g & [Hg | Hg%list_elem_of_singleton]%elem_of_app & Hp & Hc).
    + left. eauto.
    + subst g. by right.
  - intros [(g & Hg & Hp & Hc) | [Hp Hc]].
    + exists g. split; [apply elem_of_app; by left | done].
    + exists f. split; [apply elem_of_app; right; by apply list_elem_of_singleton | done].
Qed.

Lemma tc_first_step {A} (R : relation A) (x y : A) : tc R x y → ∃ z, R x z.
Proof. destruct 1; eauto. Qed.

(** A folder appended under an id that has no children adds no cycle. *)
Lemma tc_child_link_app (fs : list Folder) (f : Folder) (x y : string) :
  (∀ c, ¬ child_link (fs ++ [f]) (f_id f) c) →
  tc (child_link (fs ++ [f])) x y →
  tc (child_link fs) x y ∨ y = f_id f.
Proof.
  intros Hleaf. induction 1 as [x y Hxy | x z y Hxz _ IH].
  - apply child_link_app in Hxy as [Hold | [_ Hnew]]; [left; by apply tc_once | by right].
  - destruct IH as [Hold | ->]; [|by right].
    apply child_link_app in Hxz as [Hxz | [_ Hnew]].
    + left. by eapply tc_l.
    + subst z. destruct (tc_first_step _ _ _ Hold) as [c Hc].
      destruct (Hleaf c). apply child_link_app. by left.
Qed.

Lemma acyclic_app (fs : list Folder) (f : Folder) :
  acyclic fs →
  (∀ c, ¬ child_link (fs ++ [f]) (f_id f) c) →
  acyclic (fs ++ [f]).
Proof.
  intros Hacyc Hleaf x Hx.
  destruct (tc_child_link_app fs f x x Hleaf Hx) as [Hold | ->].
  - by apply (Hacyc x).
  - destruct (tc_first_step _ _ _ Hx) as [c Hc]. by apply (Hleaf c).
Qed.

(** A fresh id has no children when every parentId names a folder. *)
Lemma fresh_id_is_leaf (fs : list Folder) (f : Folder) :
  parents_exist fs →
  (∀ g, g ∈ fs → f_id g ≠ f_id f) →
  f_parentId f ≠ Some (f_id f) →
  ∀ c, ¬ child_link (fs ++ [f]) (f_id f) c.
Proof.
  intros Hpar Hfresh Hself c [(g & Hg & Hp & _) | [Hp _]]%child_link_app; [|done].
  destruct (Hpar g _ Hg Hp) as (h & Hh & Hid). by apply (Hfresh h).
Qed.

Lemma child_link_filter (P : Folder → Prop) `{!∀ f, Decision (P f)}
    (fs : list Folder) (p c : string) :
  child_link (filter P fs) p c → child_link fs p c.
Proof.
  intros (f & [_ Hf]%list_elem_of_filter & Hp & Hc). by exists f.
Qed.

Lemma acyclic_filter (P : Folder → Prop) `{!∀ f, Decision (P f)} (fs : list Folder) :
  acyclic fs → acyclic (filter P fs).
Proof.
  intros Hacyc x Hx. apply (Hacyc x).
  eapply tc_congruence with (f := id); [|exact Hx].
  intros p c. apply child_link_filter.
Qed.

(** ** Well-formed states *)

(** Appending a folder with a fresh id, top-level or under a folder of the
    list, and selecting it. *)
Lemma well_formed_append (st st' : State) (f : Folder) :
  folders st' = (folders st ++ [f])%list →
  notes st' = notes st →
  activeFolderId st' = f_id f →
  fresh_folder_id st (f_id f) →
  (f_parentId f = None
   ∨ ∃ parent, parent ∈ folders st ∧ f_parentId f = Some (f_id parent)) →
  well_formed st → well_formed st'.
Proof.
  intros Hfs Hns Hact Hfresh Hparent ((Hpar & Hown) & Hacyc & _).
  unfold well_formed, referential_integrity, selection_ok.
  rewrite Hfs, Hns, Hact. split; [split|split].
  - intros g p [Hg | ->%list_elem_of_singleton]%elem_of_app Hp.
    + destruct (Hpar g p Hg Hp) as (h & Hh & Hid).
      exists h. split; [apply elem_of_app; by left | done].
    + destruct Hparent as [Hnone | (parent & Hin & Hsome)]; [congruence|].
      exists parent. split; [apply elem_of_app; by left | congruence].
  - intros n Hn. destruct (Hown n Hn) as (h & Hh & Hid).
    exists h. split; [apply elem_of_app; by left | done].
  - apply acyclic_app; [done|]. apply fresh_id_is_leaf; [done | done |].
    destruct Hparent as [-> | (parent & Hin & ->)]; [done|].
    intros [= Heq]. by apply (Hfresh parent).
  - right. exists f. split; [|done].
    apply elem_of_app. right. by apply list_elem_of_singleton.
Qed.

Lemma addFolder_well_formed (st : State) (newId : string) (now : Z) :
  fresh_folder_id st newId → well_formed st → well_formed (addFolder st newId now).
Proof.
  intros Hfresh.
  apply (well_formed_append st _ (mkFolder newId None "New Customer" now));
    try done. by left.
Qed.

Lemma addSubfolder_well_formed (st : State) (expanded : gset string)
    (parent : Folder) (newId : string) (now : Z) :
  parent ∈ folders st →
  fresh_folder_id st newId →
  well_formed st →
  well_formed (addSubfolder st expanded (f_id parent) newId now).1.
Proof.
  intros Hparent Hfresh.
  apply (well_formed_append st _
           (mkFolder newId (Some (f_id parent)) "New Subfolder" now));
    try done. right. by exists parent.
Qed.

Lemma deleteFolder_integrity (fuel : nat) (st st' : State) (id : string) :
  deleteFolder fuel st id = Some st' →
  referential_integrity st → referential_integrity st'.
Proof.
  intros (ds & Hds & Hf & Hn & _)%deleteFolder_Some [Hpar Hown].
  unfold referential_integrity, parents_exist, owners_exist.
  rewrite Hf, Hn. split.
  - intros f p [Hkeep Hin]%list_elem_of_filter Hp.
    destruct (Hpar f p Hin Hp) as (g & Hg & <-).
    exists g. split; [|done]. apply list_elem_of_filter. split; [|done].
    intros Hdel. apply Hkeep. by eapply closure_closed.
  - intros n [Hkeep Hin]%list_elem_of_filter.
    destruct (Hown n Hin) as (g & Hg & Heq).
    exists g. split; [|done]. apply list_elem_of_filter. split; [|done].
    by rewrite Heq.
Qed.

Lemma deleteFolder_well_formed (fuel : nat) (st st' : State) (id : string) :
  deleteFolder fuel st id = Some st' → well_formed st → well_formed st'.
Proof.
  intros Hdel (Hint & Hacyc & Hsel).
  split; [by eapply deleteFolder_integrity|].
  apply deleteFolder_Some in Hdel as (ds & Hds & Hf & Hn & Haf & _).
  unfold selection_ok. rewrite Hf, Haf. split.
  - by apply acyclic_filter.
  - case_decide as Hin; [by left|].
    destruct Hsel as [Hall | (f & Hf' & Hid)]; [by left | right].
    exists f. split; [|done]. apply list_elem_of_filter. split; [|done].
    by rewrite Hid.
Qed.

Lemma addNote_well_formed (st : State) (newId : string) (now1 now2 : Z) :
  well_formed st → well_formed (addNote st newId now1 now2).
Proof.
  intros ((Hpar & Hown) & Hacyc & Hsel). unfold addNote.
  assert (∀ g setActive, g ∈ folders st →
    (setActive = false → f_id g = activeFolderId st) →
    well_formed (addNote_in st (f_id g) setActive newId now1 now2)) as Hin.
  { intros g setActive Hg Hact. split; [split|split]; simpl; try done.
    - intros n [-> | Hn]%elem_of_cons; [by exists g | by apply Hown].
    - destruct setActive; right; exists g; split; auto. }
  destruct (decide (activeFolderId st = "all")) as [Hall | Hne].
  - case_decide; [done|].
    destruct (find _ (folders st)) as [top|] eqn:Htop; [|done].
    apply find_Some_inv in Htop as [Htop _]. by apply Hin.
  - destruct Hsel as [Hall | (g & Hg & Hid)]; [done|].
    rewrite <-Hid. apply Hin; [done|]. by intros _.
Qed.

Lemma child_link_fmap (g : Folder → Folder) (fs : list Folder) (p c : string) :
  (∀ f, f_id (g f) = f_id f ∧ f_parentId (g f) = f_parentId f) →
  child_link (g <$> fs) p c ↔ child_link fs p c.
Proof.
  intros Hg. unfold child_link. split.
  - intros (f' & (f & -> & Hf)%list_elem_of_fmap & Hp & Hc).
    destruct (Hg f) as [Hid Hpid]. exists f. by rewrite <-Hid, <-Hpid.
  - intros (f & Hf & Hp & Hc). destruct (Hg f) as [Hid Hpid].
    exists (g f). split; [by apply list_elem_of_fmap_2 | by rewrite Hid, Hpid].
Qed.

(** Rewriting folders in place without touching ids or parentIds. *)
Lemma well_formed_fmap (st st' : State) (g : Folder → Folder) :
  folders st' = g <$> folders st →
  notes st' = notes st →
  activeFolderId st' = activeFolderId st →
  (∀ f, f_id (g f) = f_id f ∧ f_parentId (g f) = f_parentId f) →
  well_formed st → well_formed st'.
Proof.
  intros Hfs Hns Hact Hg ((Hpar & Hown) & Hacyc & Hsel).
  unfold well_formed, referential_integrity, selection_ok.
  rewrite Hfs, Hns, Hact. split; [split|split].
  - intros f' p (f & -> & Hf)%list_elem_of_fmap Hp.
    destruct (Hg f) as [_ Hpid]. rewrite Hpid in Hp.
    destruct (Hpar f p Hf Hp) as (h & Hh & Hid).
    exists (g h). split; [by apply list_elem_of_fmap_2|]. by rewrite (proj1 (Hg h)).
  - intros n Hn. destruct (Hown n Hn) as (h & Hh & Hid).
    exists (g h). split; [by apply list_elem_of_fmap_2|]. by rewrite (proj1 (Hg h)).
  - intros x Hx. apply (Hacyc x).
    eapply tc_congruence with (f := id); [|exact Hx].
    intros p c. by apply child_link_fmap.
  - destruct Hsel as [Hall | (h & Hh & Hid)]; [by left | right].
    exists (g h). split; [by apply list_elem_of_fmap_2|]. by rewrite (proj1 (Hg h)).
Qed.

Lemma commitRename_well_formed (st : State) (id : string) :
  well_formed st → well_formed (commitRename st id).
Proof.
  apply (well_formed_fmap st _
    (λ f, if decide (f_id f = id)
          then mkFolder (f_id f) (f_parentId f)
                 (if truthy (trim (folderDraft st)) then trim (folderDraft st)
                  else "Untitled") (f_createdAt f)
          else f)); try done.
  intros f. by case_decide.
Qed.

Lemma updateNote_well_formed (st : State) (id : string) (patch : NotePatch) (now : Z) :
  p_folderId patch = None →
  well_formed st → well_formed (updateNote st id patch now).
Proof.
  intros Hpatch ((Hpar & Hown) & Hacyc & Hsel).
  split; [split|split]; simpl; try done.
  intros n' (n & -> & Hn)%list_elem_of_fmap.
  destruct (Hown n Hn) as (h & Hh & Hid). exists h. split; [done|].
  case_decide; [|done]. simpl. by rewrite Hpatch.
Qed.

Lemma deleteNote_well_formed (st : State) (id : string) :
  well_formed st → well_formed (deleteNote st id).
Proof.
  intros ((Hpar & Hown) & Hacyc & Hsel).
  split; [split|split]; simpl; try done.
  intros n [_ Hn]%list_elem_of_filter. by apply Hown.
Qed.

Lemma step_well_formed (st st' : State) :
  step st st' → well_formed st → well_formed st'.
Proof.
  destruct 1; try done.
  - by apply addFolder_well_formed.
  - by apply addSubfolder_well_formed.
  - by apply commitRename_well_formed.
  - by eapply deleteFolder_well_formed.
  - apply addNote_well_formed.
  - by apply updateNote_well_formed.
  - by apply updateNote_well_formed.
  - apply deleteNote_well_formed.
  - intros (Hint & Hacyc & _). split; [done|]. split; [done | by left].
  - intros (Hint & Hacyc & Hsel). unfold onClickFolder.
    case_decide; [|done]. split; [done|]. split; [done|]. right. by exists folder.
Qed.

Lemma rtc_step_well_formed (st st' : State) :
  rtc step st st' → well_formed st → well_formed st'.
Proof. induction 1; eauto using step_well_formed. Qed.

Lemma initial_well_formed : well_formed initial.
Proof.
  split; [split|split].
  - by intros f p Hf%elem_of_nil.
  - by intros n Hn%elem_of_nil.
  - intros x (c & (f & Hf%elem_of_nil & _))%tc_first_step. done.
  - by left.
Qed.

(** X1: every state that the events of the interface reach from the empty
    initial state is well-formed: each parentId and each folderId names a
    folder of the list, the parentId relation has no cycle, and the active
    folder id is the sentinel or names a folder. *)
Theorem reachable_well_formed (st : State) :
  rtc step initial st → well_formed st.
Proof. intros Hreach. by apply (rtc_step_well_formed initial), initial_well_formed. Qed.

Lemma reachable_well_formed_witness :
  well_formed (addNote (addFolder initial "a" 1) "n" 2 3).
Proof.
  apply reachable_well_formed.
  apply rtc_l with (addFolder initial "a" 1).
  - apply step_addFolder. by intros f Hf%elem_of_nil.
  - apply rtc_once, step_addNote.
Defined.

Lemma noteCount_total (st : State) (fid : string) :
  acyclic_below (folders st) fid →
  ∃ k, noteCount (S (length (folders st))) st fid = Some k.
Proof.
  intros [ds Hds]%getFolderAndDescendants_total.
  unfold noteCount. rewrite Hds. by eexists.
Qed.

(** X2: in a state reached from the initial state, the recursion over the
    folders always comes back: [deleteFolder] and [noteCount] return for
    every id, and [visibleNotes] returns, at a recursion depth of
    [length folders + 1]. *)
Theorem reachable_operations_return (st : State) :
  rtc step initial st →
  ∀ id,
    (∃ st', deleteFolder (S (length (folders st))) st id = Some st')
    ∧ (∃ k, noteCount (S (length (folders st))) st id = Some k)
    ∧ (∃ out, visibleNotes (S (length (folders st))) st = Some out).
Proof.
  intros Hreach id.
  destruct (rtc_step_well_formed _ _ Hreach initial_well_formed) as (_ & Hacyc & _).
  split; [|split].
  - by apply deleteFolder_total, acyclic_acyclic_below.
  - by apply noteCount_total, acyclic_acyclic_below.
  - apply visibleNotes_total. right. by apply acyclic_acyclic_below.
Qed.

Lemma reachable_operations_return_witness :
  ∃ k, noteCount 2 (addNote (addFolder initial "a" 1) "n" 2 3) "a" = Some k.
Proof.
  apply (reachable_operations_return (addNote (addFolder initial "a" 1) "n" 2 3)).
  apply rtc_l with (addFolder initial "a" 1).
  - apply step_addFolder. by intros f Hf%elem_of_nil.
  - apply rtc_once, step_addNote.
Defined.

(** X3: [addSubfolder] does not look the parent up.  From a well-formed
    state and with a fresh id, the result is well-formed when a folder with
    the parent id exists; when none exists the new folder is an orphan:
    its parentId names no folder. *)
Theorem addSubfolder_parent (st : State) (expanded : gset string)
    (parentId newId : string) (now : Z) :
  well_formed st →
  fresh_folder_id st newId →
  ((∃ parent, parent ∈ folders st ∧ f_id parent = parentId) →
     well_formed (addSubfolder st expanded parentId newId now).1)
  ∧ ((∀ f, f ∈ folders st → f_id f ≠ parentId) → newId ≠ parentId →
     ¬ parents_exist (folders (addSubfolder st expanded parentId newId now).1)).
Proof.
  intros Hwf Hfresh. split.
  - intros (parent & Hparent & <-). by apply addSubfolder_well_formed.
  - intros Hmissing Hne Hpar. simpl in Hpar.
    destruct (Hpar (mkFolder newId (Some parentId) "New Subfolder" now) parentId)
      as (g & [Hg | ->%list_elem_of_singleton]%elem_of_app & Hid); try done.
    + apply elem_of_app. right. by apply list_elem_of_singleton.
    + by apply (Hmissing g).
Qed.

Lemma addSubfolder_parent_witness :
  well_formed (addSubfolder (addFolder initial "a" 1) ∅ "a" "s" 2).1.
Proof.
  apply (addSubfolder_parent (addFolder initial "a" 1) ∅ "a" "s" 2).
  - apply addFolder_well_formed; [|apply initial_well_formed].
    by intros f Hf%elem_of_nil.
  - intros f Hf%list_elem_of_singleton. by subst.
  - eexists. split; [left | reflexivity].
Defined.

(** ** After a delete *)

Lemma filter_all {A} (P : A → Prop) `{!∀ x, Decision (P x)} (l : list A) :
  (∀ x, x ∈ l → P x) → filter P l = l.
Proof.
  induction l as [|x l IH]; intros Hall; [done|].
  rewrite filter_cons_True by (apply Hall; left).
  f_equal. apply IH. intros y Hy. apply Hall. by right.
Qed.

Lemma filter_none {A} (P : A → Prop) `{!∀ x, Decision (P x)} (l : list A) :
  (∀ x, x ∈ l → ¬ P x) → filter P l = [].
Proof.
  induction l as [|x l IH]; intros Hnone; [done|].
  rewrite filter_cons_False by (apply Hnone; left).
  apply IH. intros y Hy. apply Hnone. by right.
Qed.

(** Once the closure is removed, an id of the closure has no folder below
    it: its own closure is the id alone. *)
Lemma closure_removed_leaf (fuel n : nat) (fs : list Folder) (id y : string) ds :
  getFolderAndDescendants fuel fs id = Some ds →
  y ∈ ds →
  getFolderAndDescendants (S n) (filter (λ f, f_id f ∉ ds) fs) y = Some [y].
Proof.
  intros Hds Hy. apply getFolderAndDescendants_Some. exists []. split; [|done].
  rewrite (filter_none (λ f, f_parentId f = Some y)); [constructor|].
  intros f [Hkeep Hf]%list_elem_of_filter Hp. apply Hkeep.
  by eapply closure_closed.
Qed.

(** X4: deleting the same folder again changes nothing: a second
    [deleteFolder id] returns the state the first one produced. *)
Theorem deleteFolder_twice (fuel n : nat) (st st' : State) (id : string) :
  deleteFolder fuel st id = Some st' →
  deleteFolder (S n) st' id = Some st'.
Proof.
  intros Hdel.
  pose proof (deleteFolder_Some _ _ _ _ Hdel) as (ds & Hds & Hf & Hn & Haf & Han).
  assert (id ∈ ds) as Hid.
  { apply (getFolderAndDescendants_reachable _ _ _ _ Hds). apply rtc_refl. }
  assert (∀ x, x ∈ (list_to_set [id] : gset string) ↔ x = id) as Hone.
  { intros x. by rewrite elem_of_list_to_set, list_elem_of_singleton. }
  unfold deleteFolder. rewrite Hf.
  rewrite (closure_removed_leaf fuel n _ id id ds Hds Hid).
  rewrite <-Hf. destruct st' as [fs' ns' af' an' ef' fd' se'].
  cbn [mbind option_bind folders notes activeFolderId activeNoteId
       editingFolderId folderDraft search] in *.
  f_equal. f_equal.
  - apply filter_all. intros f Hin. rewrite Hf in Hin.
    apply list_elem_of_filter in Hin as [Hkeep _].
    rewrite Hone. intros Heq. by rewrite Heq in Hkeep.
  - apply filter_all. intros m Hin. rewrite Hn in Hin.
    apply list_elem_of_filter in Hin as [Hkeep _].
    rewrite Hone. intros Heq. by rewrite Heq in Hkeep.
  - destruct (decide (af' ∈ list_to_set [id])) as [Hin%Hone | _]; [|done].
    destruct (decide (activeFolderId st ∈ ds)); [done|]. by subst.
  - destruct (decide (af' ∈ list_to_set [id])) as [Hin%Hone | _]; [|done].
    destruct (decide (activeFolderId st ∈ ds)); [done|]. by subst.
Qed.

Lemma deleteFolder_twice_witness :
  deleteFolder 1 (mkState [globex] [memo] "all" None (Some "b") "  Ledger " "INV") "a"
  = Some (mkState [globex] [memo] "all" None (Some "b") "  Ledger " "INV").
Proof.
  apply (deleteFolder_twice 3 0 sample_state). vm_compute. reflexivity.
Defined.

(** X5: after [deleteFolder id] the badge of every removed folder is zero:
    [noteCount] returns 0 for [id] and for every id that was below it. *)
Theorem noteCount_after_delete (fuel n : nat) (st st' : State) (id y : string) :
  deleteFolder fuel st id = Some st' →
  reachable (folders st) id y →
  noteCount (S n) st' y = Some 0%nat.
Proof.
  intros (ds & Hds & Hf & Hn & _)%deleteFolder_Some Hy.
  apply (getFolderAndDescendants_reachable _ _ _ _ Hds) in Hy.
  unfold noteCount. rewrite Hf, (closure_removed_leaf fuel n _ id y ds Hds Hy).
  cbn [mbind option_bind]. rewrite Hn.
  rewrite (filter_none (λ m, n_folderId m ∈ (list_to_set [y] : gset string)));
    [done|].
  intros m [Hkeep _]%list_elem_of_filter.
  rewrite elem_of_list_to_set. intros Heq%list_elem_of_singleton.
  by rewrite Heq in Hkeep.
Qed.

Lemma noteCount_after_delete_witness :
  noteCount 1 (mkState [globex] [memo] "all" None (Some "b") "  Ledger " "INV") "c"
  = Some 0%nat.
Proof.
  apply (noteCount_after_delete 3 0 sample_state _ "a").
  - vm_compute. reflexivity.
  - apply (getFolderAndDescendants_reachable 3 sample_folders "a" ["a"; "b"; "c"]);
      [reflexivity|]. right. right. left.
Defined.

(** ** Counting and listing *)

Lemma sort_length {A} (cmp : A → A → Z) (l : list A) :
  length (sort cmp l) = length l.
Proof. apply Permutation_length, sort_Permutation. Qed.

(** X6: with a folder selected and no search text, the badge of the folder
    is the number of notes listed: [noteCount] of the active folder is the
    length of [visibleNotes], and neither returns when the other does
    not. *)
Theorem noteCount_visibleNotes (fuel : nat) (st : State) :
  activeFolderId st ≠ "all" →
  search st = "" →
  noteCount fuel st (activeFolderId st) = length <$> visibleNotes fuel st.
Proof.
  intros Hsel Hsearch. unfold noteCount, visibleNotes, activeFolderIds.
  rewrite decide_False by done. rewrite Hsearch.
  destruct (getFolderAndDescendants fuel (folders st) (activeFolderId st))
    as [ds|]; [|done]. simpl.
  rewrite sort_length. f_equal. f_equal. symmetry. apply filter_all.
  intros n _. exact I.
Qed.

Lemma noteCount_visibleNotes_witness :
  noteCount 3 (setSearch sample_state "") "b"
  = length <$> visibleNotes 3 (setSearch sample_state "").
Proof.
  apply (noteCount_visibleNotes 3 (setSearch sample_state "")).
  - discriminate.
  - reflexivity.
Defined.

Lemma closure_below (fs : list Folder) (p c : string) (n m : nat) dp dc :
  reachable fs p c →
  getFolderAndDescendants n fs p = Some dp →
  getFolderAndDescendants m fs c = Some dc →
  ∀ y, y ∈ dc → y ∈ dp.
Proof.
  intros Hpc Hdp Hdc y Hy.
  apply (getFolderAndDescendants_reachable _ _ _ _ Hdp).
  apply (getFolderAndDescendants_reachable _ _ _ _ Hdc) in Hy.
  by eapply rtc_trans.
Qed.

Lemma length_filter_mono {A} (P Q : A → Prop)
    `{!∀ x, Decision (P x)} `{!∀ x, Decision (Q x)} (l : list A) :
  (∀ x, x ∈ l → P x → Q x) →
  (length (filter P l) ≤ length (filter Q l))%nat.
Proof.
  induction l as [|x l IH]; intros Himp; [done|].
  assert (length (filter P l) ≤ length (filter Q l))%nat as Hle.
  { apply IH. intros y Hy. apply Himp. by right. }
  rewrite !filter_cons. destruct (decide (P x)) as [HP | HP].
  - rewrite decide_True by (apply Himp; [left | done]). simpl. lia.
  - case_decide; simpl; lia.
Qed.

(** X7: a folder's badge counts the notes of the folders below it: when
    [c] is [p] or lies below [p], [noteCount c] is at most [noteCount p]. *)
Theorem noteCount_monotone (n m : nat) (st : State) (p c : string) (kp kc : nat) :
  reachable (folders st) p c →
  noteCount n st p = Some kp →
  noteCount m st c = Some kc →
  (kc ≤ kp)%nat.
Proof.
  unfold noteCount. intros Hpc Hp Hc.
  apply bind_Some in Hp as (dp & Hdp & [= <-]).
  apply bind_Some in Hc as (dc & Hdc & [= <-]).
  apply length_filter_mono. intros x _.
  rewrite !elem_of_list_to_set. by eapply closure_below.
Qed.

Lemma noteCount_monotone_witness : (1 ≤ 2)%nat.
Proof.
  apply (noteCount_monotone 3 3 sample_state "a" "c").
  - apply (getFolderAndDescendants_reachable 3 sample_folders "a" ["a"; "b"; "c"]);
      [reflexivity|]. right. right. left.
  - reflexivity.
  - reflexivity.
Defined.

Lemma elem_of_sort {A} (cmp : A → A → Z) (l : list A) (x : A) :
  x ∈ sort cmp l ↔ x ∈ l.
Proof. by rewrite (sort_Permutation cmp l). Qed.

(** X8: the list only narrows on the way down: with the same folders,
    notes and search text, every note listed under a folder [c] is listed
    under each folder above [c] and under the sentinel. *)
Theorem visibleNotes_narrows (n m : nat) (sp sc : State) (outp outc : list Note) :
  folders sp = folders sc →
  notes sp = notes sc →
  search sp = search sc →
  activeFolderId sc ≠ "all" →
  activeFolderId sp = "all"
    ∨ reachable (folders sp) (activeFolderId sp) (activeFolderId sc) →
  visibleNotes n sp = Some outp →
  visibleNotes m sc = Some outc →
  ∀ x, x ∈ outc → x ∈ outp.
Proof.
  intros Hfs Hns Hse Hc Hp
    (candp & Hp_all & Hp_sel & ->)%visibleNotes_Some
    (candc & _ & Hc_sel & ->)%visibleNotes_Some x.
  rewrite !elem_of_sort, !list_elem_of_filter, Hse.
  intros [Hmatch Hx]. split; [done|].
  destruct (Hc_sel Hc) as (dc & Hdc & ->).
  apply list_elem_of_filter in Hx as [Hin Hx].
  destruct (decide (activeFolderId sp = "all")) as [Hall | Hsel].
  - rewrite (Hp_all Hall), Hns. done.
  - destruct Hp as [Hall | Hreach]; [done|].
    destruct (Hp_sel Hsel) as (dp & Hdp & ->).
    apply list_elem_of_filter. split; [|by rewrite Hns].
    rewrite <-Hfs in Hdc. by eapply closure_below.
Qed.

Lemma visibleNotes_narrows_witness : receipt ∈ [invoice; receipt].
Proof.
  apply (visibleNotes_narrows 3 3
           (mkState sample_folders sample_notes "a" None None "" "INV") sample_state
           [invoice; receipt] [invoice; receipt]);
    try reflexivity.
  - discriminate.
  - right. apply (getFolderAndDescendants_reachable 3 sample_folders "a" ["a"; "b"; "c"]);
      [reflexivity|]. right. left.
  - right. left.
Defined.

(** ** Notes *)

Lemma applyPatch_twice (n : Note) (patch : NotePatch) (now1 now2 : Z) :
  applyPatch (applyPatch n patch now1) patch now2 = applyPatch n patch now2.
Proof.
  unfold applyPatch. simpl.
  destruct patch as [[?|] [?|] [?|] [?|] [?|] ?]; reflexivity.
Qed.

(** X9: editing twice with the same patch is editing once at the later
    time, for a patch that leaves the id alone or sets it to [id]: the
    fields are the same and [updatedAt] is the second time. *)
Theorem updateNote_twice (st : State) (id : string) (patch : NotePatch) (now1 now2 : Z) :
  p_id patch = None ∨ p_id patch = Some id →
  updateNote (updateNote st id patch now1) id patch now2
  = updateNote st id patch now2.
Proof.
  intros Hid. unfold updateNote. simpl. f_equal.
  rewrite <-list_fmap_compose. apply list_fmap_ext. intros _ n _. simpl.
  destruct (decide (n_id n = id)) as [Hn | Hn].
  - rewrite decide_True; [apply applyPatch_twice|].
    simpl. destruct Hid as [-> | ->]; done.
  - by rewrite decide_False.
Qed.

Lemma updateNote_twice_witness :
  updateNote (updateNote sample_state "n1" (titlePatch "Bill") 300) "n1"
    (titlePatch "Bill") 400
  = updateNote sample_state "n1" (titlePatch "Bill") 400.
Proof. apply updateNote_twice. by left. Defined.

(** X10: an edit moves the note to the top of the list.  When [now] is
    later than every [updatedAt] in the store and an edited note is listed,
    the first note listed is an edited one: a note with the id, patched,
    with [updatedAt = now]. *)
Theorem updateNote_first (fuel : nat) (st : State) (id : string)
    (patch : NotePatch) (now : Z) (out : list Note) :
  (∀ m, m ∈ notes st → (n_updatedAt m < now)%Z) →
  visibleNotes fuel (updateNote st id patch now) = Some out →
  (∃ x, x ∈ out ∧ n_updatedAt x = now) →
  ∃ h t orig,
    out = h :: t ∧ orig ∈ notes st ∧ n_id orig = id
    ∧ h = applyPatch orig patch now.
Proof.
  intros Hold Hvis (x & Hx & Hnow).
  pose proof (visibleNotes_Some _ _ _ Hvis) as (cands & Hall & Hsel & Hout).
  assert (StronglySorted newer_or_same out) as Hsorted
    by (rewrite Hout; apply sort_sorted).
  assert (∀ y, y ∈ out → y ∈ notes (updateNote st id patch now)) as Hsub.
  { intros y. rewrite Hout, elem_of_sort, list_elem_of_filter. intros [_ Hy].
    destruct (decide (activeFolderId (updateNote st id patch now) = "all"))
      as [Ha | Ha].
    - by rewrite (Hall Ha) in Hy.
    - destruct (Hsel Ha) as (ds & _ & ->).
      by apply list_elem_of_filter in Hy as [_ Hy]. }
  destruct out as [|h t]; [by apply elem_of_nil in Hx|].
  assert (now ≤ n_updatedAt h)%Z as Hh.
  { apply elem_of_cons in Hx as [-> | Hx]; [lia|].
    apply StronglySorted_inv in Hsorted as [_ Hall'].
    rewrite Forall_forall in Hall'. specialize (Hall' x Hx).
    unfold newer_or_same in Hall'. lia. }
  assert (h ∈ notes (updateNote st id patch now)) as Hin by (apply Hsub; left).
  simpl in Hin. apply list_elem_of_fmap in Hin as (orig & Heq & Horig).
  exists h, t, orig. split; [done|]. split; [done|].
  destruct (decide (n_id orig = id)) as [Hid | Hid]; [done|].
  specialize (Hold orig Horig). subst h. lia.
Qed.

Lemma updateNote_first_witness :
  ∃ h t orig,
    [mkNote "n3" "c" "Receipt" "refund" 12 300; memo; invoice] = h :: t
    ∧ orig ∈ notes sample_all ∧ n_id orig = "n3"
    ∧ h = applyPatch orig (contentPatch "refund") 300.
Proof.
  apply (updateNote_first 0 sample_all "n3" (contentPatch "refund") 300).
  - intros m Hm. apply list_elem_of_In in Hm. simpl in Hm.
    destruct Hm as [<- | [<- | [<- | []]]]; reflexivity.
  - reflexivity.
  - eexists. split; [left | reflexivity].
Defined.

Lemma addNote_cases (st : State) (newId : string) (now1 now2 : Z) :
  addNote st newId now1 now2 = st
  ∨ ∃ fid setActive,
      addNote st newId now1 now2 = addNote_in st fid setActive newId now1 now2
      ∧ activeFolderId (addNote st newId now1 now2) = fid.
Proof.
  unfold addNote. case_decide as Hall.
  - case_decide; [by left|].
    destruct (find _ (folders st)) as [top|]; [|by left].
    right. by exists (f_id top), true.
  - right. by exists (activeFolderId st), false.
Qed.

(** X11: deleting the note just added, when its id is fresh among the
    notes, gives back the note and folder collections as they were. *)
Theorem addNote_deleteNote (st : State) (newId : string) (now1 now2 : Z) :
  (∀ m, m ∈ notes st → n_id m ≠ newId) →
  notes (deleteNote (addNote st newId now1 now2) newId) = notes st
  ∧ folders (deleteNote (addNote st newId now1 now2) newId) = folders st.
Proof.
  intros Hfresh.
  destruct (addNote_cases st newId now1 now2) as [-> | (fid & b & -> & _)]; simpl.
  - split; [by apply filter_all | done].
  - split; [|done]. rewrite filter_cons_False by (simpl; by intros []).
    by apply filter_all.
Qed.

Lemma addNote_deleteNote_witness :
  notes (deleteNote (addNote sample_state "n9" 50 51) "n9") = notes sample_state
  ∧ folders (deleteNote (addNote sample_state "n9" 50 51) "n9") = folders sample_state.
Proof.
  apply addNote_deleteNote.
  intros m Hm. apply list_elem_of_In in Hm. simpl in Hm.
  destruct Hm as [<- | [<- | [<- | []]]]; discriminate.
Defined.

Lemma includes_in_empty (sub : string) : sub ≠ "" → includes "" sub = false.
Proof. by destruct sub. Qed.

Lemma matchesSearch_blank_note (text : string) (n : Note) :
  text ≠ "" → n_title n = "" → n_content n = "" → matchesSearch text n = false.
Proof.
  intros Htext Ht Hc. unfold matchesSearch. rewrite Ht, Hc.
  change (toLowerCase "") with "".
  rewrite includes_in_empty by (by intros ?%toLowerCase_empty).
  apply truthy_true in Htext. by rewrite Htext.
Qed.

(** X12: when [addNote] creates a note, that note becomes the open note;
    it is in the list when there is no search text, and it is not in the
    list when there is one, since its title and content are empty. *)
Theorem addNote_open_and_listed (st : State) (newId : string) (now1 now2 : Z) :
  addNote st newId now1 now2 ≠ st →
  let st' := addNote st newId now1 now2 in
  let new := newNote newId (activeFolderId st') now1 now2 in
  activeNote st' = Some new
  ∧ (∀ fuel out, visibleNotes fuel st' = Some out →
       (search st = "" → new ∈ out) ∧ (search st ≠ "" → new ∉ out)).
Proof.
  intros Hcreated.
  destruct (addNote_cases st newId now1 now2) as [? | (fid & b & Heq & Hact)];
    [done|].
  simpl. rewrite Hact. rewrite Heq in *. split.
  - unfold activeNote. simpl. by rewrite bool_decide_eq_true_2.
  - intros fuel out (cands & Hall & Hsel & ->)%visibleNotes_Some.
    simpl in *. rewrite Hact in Hall, Hsel. split.
    + intros Hs. rewrite elem_of_sort, list_elem_of_filter, Hs. split; [done|].
      destruct (decide (fid = "all")) as [Ha | Ha].
      * rewrite (Hall Ha). left.
      * destruct (Hsel Ha) as (ds & Hds & ->).
        apply list_elem_of_filter. split; [|left]. simpl.
        apply (getFolderAndDescendants_reachable _ _ _ _ Hds), rtc_refl.
    + intros Hs. rewrite elem_of_sort, list_elem_of_filter. intros [Hm _].
      by rewrite matchesSearch_blank_note in Hm.
Qed.

Lemma addNote_open_and_listed_witness :
  activeNote (addNote sample_state "n9" 50 51) = Some (newNote "n9" "b" 50 51)
  ∧ (∀ fuel out, visibleNotes fuel (addNote sample_state "n9" 50 51) = Some out →
       (search sample_state = "" → newNote "n9" "b" 50 51 ∈ out)
       ∧ (search sample_state ≠ "" → newNote "n9" "b" 50 51 ∉ out)).
Proof.
  apply (addNote_open_and_listed sample_state "n9" 50 51). discriminate.
Defined.

Lemma find_filter {A} (p : A → bool) (Q : A → Prop) `{!∀ x, Decision (Q x)}
    (l : list A) :
  (∀ x, x ∈ l → p x = true → Q x) → find p (filter Q l) = find p l.
Proof.
  induction l as [|x l IH]; intros Himp; [done|].
  assert (find p (filter Q l) = find p l) as IH'.
  { apply IH. intros y Hy. apply Himp. by right. }
  rewrite filter_cons. destruct (decide (Q x)) as [HQ | HQ]; simpl.
  - by rewrite IH'.
  - destruct (p x) eqn:Hpx; [|done]. destruct HQ. apply Himp; [left | done].
Qed.

Lemma find_filter_Some {A} (p : A → bool) (Q : A → Prop) `{!∀ x, Decision (Q x)}
    (l : list A) (x : A) :
  find p l = Some x → Q x → find p (filter Q l) = Some x.
Proof.
  induction l as [|a l IH]; simpl; [done|]. intros Hfind HQ.
  rewrite filter_cons. destruct (p a) eqn:Hpa.
  - injection Hfind as ->. rewrite decide_True by done. simpl. by rewrite Hpa.
  - case_decide; simpl; [rewrite Hpa|]; by apply IH.
Qed.

(** X13: [deleteNote] closes the editor exactly when it deletes the open
    note: if the active note id is [id] no note is open afterwards, and
    otherwise the open note is the one that was open. *)
Theorem deleteNote_activeNote (st : State) (id : string) :
  (activeNoteId st = Some id → activeNote (deleteNote st id) = None)
  ∧ (activeNoteId st ≠ Some id → activeNote (deleteNote st id) = activeNote st).
Proof.
  unfold activeNote. simpl. split; intros Hact.
  - rewrite decide_True by done. apply find_None_inv. by intros.
  - rewrite decide_False by done. apply find_filter.
    intros n _ Hn%bool_decide_eq_true Heq. apply Hact. by rewrite <-Hn, Heq.
Qed.

Lemma deleteNote_activeNote_witness :
  activeNote (deleteNote sample_state "n1") = None
  ∧ activeNote (deleteNote sample_state "n2") = activeNote sample_state.
Proof.
  split.
  - apply (proj1 (deleteNote_activeNote sample_state "n1")). reflexivity.
  - apply (proj2 (deleteNote_activeNote sample_state "n2")). discriminate.
Defined.

(** X14: after [deleteFolder id] the editor never shows a note of a removed
    folder, also when the active note id is left in place: the open note,
    if any, is a note of the old store whose folder is outside the closure
    of [id]; and a note that was open and lies outside the closure stays
    open unless the active folder was removed. *)
Theorem deleteFolder_activeNote (fuel : nat) (st st' : State) (id : string) :
  deleteFolder fuel st id = Some st' →
  (∀ m, activeNote st' = Some m →
     m ∈ notes st ∧ ¬ reachable (folders st) id (n_folderId m))
  ∧ (∀ m, activeNote st = Some m →
       ¬ reachable (folders st) id (n_folderId m) →
       ¬ reachable (folders st) id (activeFolderId st) →
       activeNote st' = Some m).
Proof.
  intros (ds & Hds & _ & Hn & _ & Han)%deleteFolder_Some.
  pose proof (getFolderAndDescendants_reachable _ _ _ _ Hds) as Hreach.
  unfold activeNote. rewrite Hn, Han. split.
  - intros m [[Hkeep Hm]%list_elem_of_filter _]%find_Some_inv.
    split; [done|]. by rewrite <-Hreach.
  - intros m Hm Hout Hact. rewrite decide_False by (by rewrite Hreach).
    apply find_filter_Some; [done|]. by rewrite Hreach.
Qed.

Lemma deleteFolder_activeNote_witness :
  memo ∈ sample_notes
  ∧ (reachable sample_folders "a" (n_folderId memo) → False).
Proof.
  apply (proj1 (deleteFolder_activeNote 3
           (mkState sample_folders sample_notes "g" (Some "n2") None "" "")
           (mkState [globex] [memo] "g" (Some "n2") None "" "")
           "a" eq_refl) memo).
  reflexivity.
Defined.

(** ** Renaming again *)

Lemma trimStart_head (s : string) :
  trimStart s = "" ∨ ∃ c r, trimStart s = String c r ∧ is_white_space c = false.
Proof.
  induction s as [|c s IH]; simpl; [by left|].
  destruct (is_white_space c) eqn:Hc; [done|]. right. by exists c, s.
Qed.

Lemma trimEnd_head (c : N) (r : string) :
  is_white_space c = false → ∃ r', trimEnd (String c r) = String c r'.
Proof.
  intros Hc. simpl. destruct (trimEnd r); rewrite ?Hc; by eexists.
Qed.

Lemma trimEnd_idem (s : string) : trimEnd (trimEnd s) = trimEnd s.
Proof.
  induction s as [|c s IH]; simpl; [done|].
  destruct (trimEnd s) as [|d t] eqn:Hs.
  - destruct (is_white_space c) eqn:Hc; simpl; by rewrite ?Hc.
  - change (trimEnd (String c (String d t)))
      with (match trimEnd (String d t) with
            | EmptyString =>
                if is_white_space c then EmptyString else String c EmptyString
            | u => String c u
            end).
    by rewrite IH.
Qed.

(** Trimming a trimmed string changes nothing. *)
Lemma trim_idem (s : string) : trim (trim s) = trim s.
Proof.
  unfold trim. destruct (trimStart_head s) as [-> | (c & r & -> & Hc)]; [done|].
  destruct (trimEnd_head c r Hc) as [r' Hr'].
  rewrite Hr' at 1. simpl trimStart. rewrite Hc, <-Hr'. apply trimEnd_idem.
Qed.

Lemma committed_name_fixed (draft : string) :
  let name := if truthy (trim draft) then trim draft else "Untitled" in
  (if truthy (trim name) then trim name else "Untitled") = name.
Proof.
  simpl. destruct (truthy (trim draft)) eqn:Ht; [|done].
  by rewrite trim_idem, Ht.
Qed.

(** X15: opening the rename box on a folder that was renamed and committing
    without typing leaves the folders as they are: the committed name is
    already trimmed and not empty. *)
Theorem rename_again (st : State) (id newName : string) (f : Folder) :
  f ∈ folders (renameFolder st id newName) →
  f_id f = id →
  folders (commitRename (startRename (renameFolder st id newName) f) id)
  = folders (renameFolder st id newName).
Proof.
  intros Hf Hid.
  assert (f_name f = if truthy (trim newName) then trim newName else "Untitled")
    as Hname.
  { rewrite renameFolder_folders in Hf.
    apply list_elem_of_fmap in Hf as (g & -> & _).
    revert Hid. by case_decide. }
  unfold commitRename, startRename. simpl. rewrite Hname, committed_name_fixed.
  rewrite <-list_fmap_compose. apply list_fmap_ext. intros _ g _. simpl.
  destruct (decide (f_id g = id)) as [Hg | Hg]; simpl.
  - by rewrite decide_True.
  - by rewrite decide_False.
Qed.

Lemma rename_again_witness :
  folders (commitRename
             (startRename (renameFolder sample_state "b" "  Ledger ")
                (mkFolder "b" (Some "a") "Ledger" 2)) "b")
  = folders (renameFolder sample_state "b" "  Ledger ").
Proof.
  apply rename_again; [|reflexivity]. vm_compute. right. left.
Defined.

(** ** Under the invariant *)

Lemma find_by_id_exists (fs : list Folder) (fid : string) (g : Folder) :
  g ∈ fs → f_id g = fid →
  ∃ f, find (λ f, bool_decide (f_id f = fid)) fs = Some f.
Proof.
  intros Hg Hid.
  destruct (find _ fs) as [f|] eqn:Hfind; [by exists f|].
  rewrite find_by_id_None in Hfind. by destruct (Hfind g Hg).
Qed.

(** X16: when every parentId names a folder of the list and no id is the
    empty string, the breadcrumb of an existing folder is its name if it is
    top-level and its parent's name, [" / "] and its name otherwise. *)
Theorem folderPath_well_formed (fs : list Folder) (fid : string) (folder : Folder) :
  parents_exist fs →
  (∀ f, f ∈ fs → f_id f ≠ "") →
  find (λ f, bool_decide (f_id f = fid)) fs = Some folder →
  (f_parentId folder = None → folderPath fs fid = f_name folder)
  ∧ (∀ p, f_parentId folder = Some p →
       ∃ parent, parent ∈ fs ∧ f_id parent = p
         ∧ folderPath fs fid = f_name parent ++ " / " ++ f_name folder).
Proof.
  intros Hpar Hids Hfind. unfold folderPath. rewrite Hfind.
  apply find_by_id in Hfind as [Hin _]. split.
  - by intros ->.
  - intros p Hp. rewrite Hp. simpl.
    destruct (Hpar folder p Hin Hp) as (g & Hg & Hid).
    destruct (find_by_id_exists fs p g Hg Hid) as [parent Hparent].
    rewrite find_parent, Hparent.
    apply find_by_id in Hparent as [Hpin Hpid].
    assert (truthy p = true) as -> by (apply truthy_true; rewrite <-Hid; auto).
    by exists parent.
Qed.

Lemma folderPath_well_formed_witness :
  ∃ parent, parent ∈ sample_folders ∧ f_id parent = "b"
    ∧ folderPath sample_folders "c" = f_name parent ++ " / " ++ f_name archive.
Proof.
  apply (proj2 (folderPath_well_formed sample_folders "c" archive
           (parents_exist_check sample_folders eq_refl)
           ltac:(intros f Hf; apply list_elem_of_In in Hf; simpl in Hf;
                 destruct Hf as [<- | [<- | [<- | [<- | []]]]]; discriminate)
           eq_refl)).
  reflexivity.
Defined.

(** Without a top-level folder every folder has a parent in the list, and
    the chain of parents would never end. *)
Lemma has_top_level (fs : list Folder) :
  parents_exist fs → acyclic fs → fs ≠ [] →
  ∃ top, find (λ f, bool_decide (f_parentId f = None)) fs = Some top.
Proof.
  intros Hpar Hacyc Hne.
  destruct (find _ fs) as [top|] eqn:Hfind; [by exists top|]. exfalso.
  rewrite find_None_inv in Hfind.
  assert (∀ k f, f ∈ fs →
    is_Some (getFolderAndDescendants (S (length fs) - k) fs (f_id f))) as Hdeep.
  { induction k as [|k IH]; intros f Hf.
    - rewrite Nat.sub_0_r.
      by apply getFolderAndDescendants_total, acyclic_acyclic_below.
    - destruct (f_parentId f) as [p|] eqn:Hp.
      + destruct (Hpar f p Hf Hp) as (g & Hg & Hid).
        specialize (IH g Hg).
        destruct (S (length fs) - k)%nat as [|m] eqn:Hm; [by destruct IH|].
        replace (S (length fs) - S k)%nat with m by lia.
        apply (getFolderAndDescendants_child m fs (f_id g)); [done|].
        exists f. by rewrite Hid.
      + specialize (Hfind f Hf). by rewrite Hp, bool_decide_eq_true_2 in Hfind. }
  destruct fs as [|f fs]; [done|].
  destruct (Hdeep (S (length (f :: fs))) f) as [l Hl]; [left|].
  by rewrite Nat.sub_diag in Hl.
Qed.

Lemma find_Some_split {A} (p : A → bool) (xs : list A) (x : A) :
  find p xs = Some x →
  ∃ pre post, xs = (pre ++ x :: post)%list ∧ p x = true
    ∧ ∀ y, y ∈ pre → p y = false.
Proof.
  induction xs as [|a xs IH]; simpl; [done|].
  destruct (p a) eqn:Hpa.
  - intros [= ->]. exists [], xs. split; [done|]. split; [done|].
    by intros y Hy%elem_of_nil.
  - intros (pre & post & -> & Hx & Hpre)%IH.
    exists (a :: pre), post. split; [done|]. split; [done|].
    intros y [-> | Hy]%elem_of_cons; auto.
Qed.

(** X17: in a well-formed state with at least one folder, [addNote] under
    the sentinel always creates its note: a top-level folder exists, the
    note goes to the first top-level folder of the list, and that folder
    becomes the active one. *)
Theorem addNote_well_formed_all (st : State) (newId : string) (now1 now2 : Z) :
  well_formed st →
  activeFolderId st = "all" →
  folders st ≠ [] →
  ∃ (pre : list Folder) (top : Folder) (post : list Folder),
    folders st = (pre ++ top :: post)%list
    ∧ f_parentId top = None
    ∧ (∀ f, f ∈ pre → f_parentId f ≠ None)
    ∧ notes (addNote st newId now1 now2)
      = newNote newId (f_id top) now1 now2 :: notes st
    ∧ activeFolderId (addNote st newId now1 now2) = f_id top.
Proof.
  intros ((Hpar & _) & Hacyc & _) Hall Hne.
  destruct (has_top_level _ Hpar Hacyc Hne) as [top Htop].
  unfold addNote. rewrite decide_True by done.
  rewrite decide_False by (by destruct (folders st)).
  rewrite Htop.
  apply find_Some_split in Htop as (pre & post & Hsplit & Hp & Hpre).
  exists pre, top, post. split; [done|].
  split; [by apply bool_decide_eq_true in Hp|].
  split; [|done]. intros f Hf.
  by apply (bool_decide_eq_false_1 (f_parentId f = None)), Hpre.
Qed.

Lemma addNote_well_formed_all_witness :
  ∃ (pre : list Folder) (top : Folder) (post : list Folder),
    folders (addFolder (addFolder initial "a" 1) "g" 2) = (pre ++ top :: post)%list
    ∧ f_parentId top = None
    ∧ (∀ f, f ∈ pre → f_parentId f ≠ None)
    ∧ notes (addNote (onClickAllNotes (addFolder (addFolder initial "a" 1) "g" 2))
               "n" 3 4)
      = newNote "n" (f_id top) 3 4 :: []
    ∧ activeFolderId
        (addNote (onClickAllNotes (addFolder (addFolder initial "a" 1) "g" 2))
           "n" 3 4)
      = f_id top.
Proof.
  apply (addNote_well_formed_all
           (onClickAllNotes (addFolder (addFolder initial "a" 1) "g" 2))).
  - apply (rtc_step_well_formed initial); [|apply initial_well_formed].
    apply rtc_l with (addFolder initial "a" 1).
    { apply step_addFolder. by intros f Hf%elem_of_nil. }
    apply rtc_l with (addFolder (addFolder initial "a" 1) "g" 2).
    { apply step_addFolder. intros f Hf%list_elem_of_singleton. by subst. }
    apply rtc_once, step_allNotes.
  - reflexivity.
  - discriminate.
Defined.

(** On two customers the note goes to the first. *)
Example addNote_first_of_two :
  n_folderId <$> notes
    (addNote (mkState [acme; globex] [] "all" None None "" "") "n" 3 4)
  = ["a"].
Proof. reflexivity. Qed.

(** ** The expanded set and the stored folders *)

(** X18: [toggleExpanded] flips the membership of the folder id and of no
    other id, and toggling twice gives back the set. *)
Theorem toggleExpanded_flip (prev : gset string) (folderId : string) :
  (∀ y, y ∈ toggleExpanded prev folderId ↔
        (y = folderId ∧ folderId ∉ prev) ∨ (y ≠ folderId ∧ y ∈ prev))
  ∧ toggleExpanded (toggleExpanded prev folderId) folderId = prev.
Proof.
  assert (∀ s y, y ∈ toggleExpanded s folderId ↔
            (y = folderId ∧ folderId ∉ s) ∨ (y ≠ folderId ∧ y ∈ s)) as Hflip.
  { intros s y. unfold toggleExpanded. destruct (decide (folderId ∈ s)) as [Hin | Hin].
    - rewrite elem_of_difference, elem_of_singleton. tauto.
    - rewrite elem_of_union, elem_of_singleton.
      destruct (decide (y = folderId)) as [-> | Hne]; tauto. }
  split; [apply Hflip|].
  apply set_eq. intros y. rewrite !Hflip.
  destruct (decide (y = folderId)) as [-> | Hne];
    destruct (decide (folderId ∈ prev)); tauto.
Qed.

(** X19: a store written before subfolders existed loads as a flat list of
    customers: when no stored record has a parentId, every migrated folder
    is top-level, the ids, names and order are those stored, and the
    closure of every id is that id alone. *)
Theorem migrated_legacy (parsed : list StoredFolder) :
  (∀ r, r ∈ parsed → sf_parentId r = ParentMissing) →
  topLevelFolders (migrated parsed) = migrated parsed
  ∧ f_id <$> migrated parsed = sf_id <$> parsed
  ∧ f_name <$> migrated parsed = sf_name <$> parsed
  ∧ ∀ id n, getFolderAndDescendants (S n) (migrated parsed) id = Some [id].
Proof.
  intros Hlegacy.
  assert (∀ f, f ∈ migrated parsed → f_parentId f = None) as Htop.
  { intros f (r & -> & Hr)%list_elem_of_fmap. simpl. by rewrite (Hlegacy r Hr). }
  split; [by apply filter_all|]. unfold migrated.
  split; [by rewrite <-list_fmap_compose|].
  split; [by rewrite <-list_fmap_compose|].
  intros id n. apply getFolderAndDescendants_Some. exists []. split; [|done].
  rewrite filter_none; [constructor|].
  intros f Hf Hp. by rewrite (Htop f Hf) in Hp.
Qed.

Lemma migrated_legacy_witness :
  topLevelFolders (migrated [mkStored "a" ParentMissing "Acme" 1])
  = migrated [mkStored "a" ParentMissing "Acme" 1].
Proof.
  apply (migrated_legacy [mkStored "a" ParentMissing "Acme" 1]).
  intros r Hr%list_elem_of_singleton. by subst.
Defined.

(** ** Names, counts and closures *)

Lemma filter_fmap_folders (g : Folder → Folder) (P : Folder → Prop)
    `{!∀ f, Decision (P f)} (fs : list Folder) :
  (∀ f, P (g f) ↔ P f) → filter P (g <$> fs) = g <$> filter P fs.
Proof.
  intros Hg. induction fs as [|f fs IH]; [done|].
  rewrite fmap_cons, !filter_cons, IH.
  destruct (decide (P f)) as [HP | HP].
  - by rewrite decide_True by (by apply Hg).
  - by rewrite decide_False by (by rewrite Hg).
Qed.

Lemma mapM_fmap_ids {B} (g : Folder → Folder) (F : string → option B)
    (fs : list Folder) :
  (∀ f, f_id (g f) = f_id f) →
  mapM (λ c, F (f_id c)) (g <$> fs) = mapM (λ c, F (f_id c)) fs.
Proof.
  intros Hg. induction fs as [|f fs IH]; [done|].
  rewrite fmap_cons. simpl. by rewrite Hg, IH.
Qed.

(** The closure reads ids and parentIds only. *)
Lemma getFolderAndDescendants_fmap (g : Folder → Folder) (fs : list Folder) :
  (∀ f, f_id (g f) = f_id f ∧ f_parentId (g f) = f_parentId f) →
  ∀ fuel id,
    getFolderAndDescendants fuel (g <$> fs) id = getFolderAndDescendants fuel fs id.
Proof.
  intros Hg. induction fuel as [|fuel IH]; intros id; [done|]. simpl.
  rewrite (filter_fmap_folders g (λ f, f_parentId f = Some id))
    by (intros f; by rewrite (proj2 (Hg f))).
  rewrite (mapM_fmap_ids g (getFolderAndDescendants fuel (g <$> fs)))
    by (intros f; apply Hg).
  by rewrite (mapM_ext _ (λ c, getFolderAndDescendants fuel fs (f_id c)))
    by (intros c; apply IH).
Qed.

(** X20: a rename changes names only: the closure of every folder id, every
    badge and the list of notes are what they were before it. *)
Theorem renameFolder_keeps_views (fuel : nat) (st : State) (id newName : string) :
  (∀ x, getFolderAndDescendants fuel (folders (renameFolder st id newName)) x
        = getFolderAndDescendants fuel (folders st) x)
  ∧ (∀ x, noteCount fuel (renameFolder st id newName) x = noteCount fuel st x)
  ∧ visibleNotes fuel (renameFolder st id newName) = visibleNotes fuel st.
Proof.
  assert (∀ x, getFolderAndDescendants fuel (folders (renameFolder st id newName)) x
               = getFolderAndDescendants fuel (folders st) x) as Hsame.
  { intros x. rewrite renameFolder_folders.
    apply getFolderAndDescendants_fmap. intros f. by case_decide. }
  split; [done|]. split.
  - intros x. unfold noteCount. by rewrite Hsame.
  - unfold visibleNotes, activeFolderIds. by rewrite Hsame.
Qed.

(** X21: a folder created under a fresh id and committed with the rename
    box untouched keeps its default name: the store is the old one followed
    by a folder named ["New Customer"], or ["New Subfolder"] under the
    parent. *)
Theorem create_then_commit (st : State) (expanded : gset string)
    (parentId newId : string) (now : Z) :
  fresh_folder_id st newId →
  folders (commitRename (addFolder st newId now) newId)
    = (folders st ++ [mkFolder newId None "New Customer" now])%list
  ∧ folders (commitRename (addSubfolder st expanded parentId newId now).1 newId)
    = (folders st ++ [mkFolder newId (Some parentId) "New Subfolder" now])%list.
Proof.
  intros Hfresh.
  assert (∀ name : string,
    (λ f, if decide (f_id f = newId)
          then mkFolder (f_id f) (f_parentId f) name (f_createdAt f)
          else f) <$> folders st = folders st) as Hold.
  { intros name. rewrite <-(list_fmap_id (folders st)) at 2.
    apply list_fmap_ext. intros _ f Hf%list_elem_of_lookup_2.
    by rewrite decide_False by (by apply Hfresh). }
  split; unfold commitRename; simpl; rewrite fmap_app, Hold; simpl;
    by rewrite decide_True.
Qed.

Lemma create_then_commit_witness :
  folders (commitRename (addFolder sample_state "z" 9) "z")
    = (folders sample_state ++ [mkFolder "z" None "New Customer" 9])%list
  ∧ folders (commitRename (addSubfolder sample_state ∅ "a" "z" 9).1 "z")
    = (folders sample_state ++ [mkFolder "z" (Some "a") "New Subfolder" 9])%list.
Proof.
  apply create_then_commit.
  intros f Hf. apply list_elem_of_In in Hf. simpl in Hf.
  destruct Hf as [<- | [<- | [<- | [<- | []]]]]; discriminate.
Defined.

(** X22: [deleteFolder id] removes as many notes as the badge of [id]
    shows: the notes left and [noteCount id] add up to the notes there
    were. *)
Theorem deleteFolder_removes_count (fuel : nat) (st st' : State) (id : string) :
  deleteFolder fuel st id = Some st' →
  ∃ k, noteCount fuel st id = Some k
    ∧ (length (notes st') + k = length (notes st))%nat.
Proof.
  unfold deleteFolder, noteCount. intros H.
  apply bind_Some in H as (ds & Hds & [= <-]). rewrite Hds. simpl.
  eexists. split; [done|].
  rewrite Nat.add_comm, <-length_app.
  apply Permutation_length, filter_app_complement.
Qed.

Lemma deleteFolder_removes_count_witness :
  ∃ k, noteCount 3 sample_state "a" = Some k
    ∧ (length [memo] + k = length (notes sample_state))%nat.
Proof.
  apply (deleteFolder_removes_count 3 sample_state
           (mkState [globex] [memo] "all" None (Some "b") "  Ledger " "INV") "a").
  reflexivity.
Defined.
